(** * The knowledge scoper: header detection and scope accumulation

    A shallow embedding of [useKnowledgeScoper] (the hook of
    [src/hooks/useKnowledgeScoper.ts], "v3", and its predecessor "v2"),
    which splits free text into lines and files every content line under
    the most recently detected header.

    JavaScript strings are sequences of UTF-16 code units; a code unit is
    a number below 65536 and is modelled by [N].  The scope table is a
    plain JavaScript object: its own properties are kept in creation
    order, it inherits from [Object.prototype], and [Object.keys] lists
    array-index keys first. *)

From Stdlib Require Import List NArith Bool Lia Ascii String Permutation Sorted.
Import ListNotations.
Local Open Scope N_scope.
Local Open Scope list_scope.

(** ** Strings *)

Definition jsstring : Type := list N.

(** The code units of a Basic Latin literal. *)
Definition js (s : string) : jsstring := map N_of_ascii (list_ascii_of_string s).

Definition ch (a : ascii) : N := N_of_ascii a.

(** The line feed, on which the input is split. *)
Definition LF : N := 10.

(** U+2022, the bullet of the list-item pattern. *)
Definition BULLET : N := 8226.

Fixpoint String_eqb (s t : jsstring) : bool :=
  match s, t with
  | [], [] => true
  | a :: s', b :: t' => (a =? b) && String_eqb s' t'
  | _, _ => false
  end.

(** [!s] for a string: only the empty string is falsy. *)
Definition isEmpty (s : jsstring) : bool :=
  match s with [] => true | _ :: _ => false end.

(** [s.length]. *)
Definition strlen (s : jsstring) : N := N.of_nat (List.length s).

(** WhiteSpace and LineTerminator of ECMAScript: what [trim] strips and
    what [\s] matches. *)
Definition isWhiteSpace (c : N) : bool :=
  ((9 <=? c) && (c <=? 13)) || (c =? 32) || (c =? 160) || (c =? 5760)
  || ((8192 <=? c) && (c <=? 8202)) || (c =? 8232) || (c =? 8233)
  || (c =? 8239) || (c =? 8287) || (c =? 12288) || (c =? 65279).

(** The code units [.] refuses: LF, CR, LS and PS. *)
Definition isLineTerminator (c : N) : bool :=
  (c =? 10) || (c =? 13) || (c =? 8232) || (c =? 8233).

(** [\d]. *)
Definition isDigit (c : N) : bool := (48 <=? c) && (c <=? 57).

Fixpoint dropWhile (p : N -> bool) (s : jsstring) : jsstring :=
  match s with
  | [] => []
  | c :: s' => if p c then dropWhile p s' else s
  end.

Fixpoint takeWhile (p : N -> bool) (s : jsstring) : jsstring :=
  match s with
  | [] => []
  | c :: s' => if p c then c :: takeWhile p s' else []
  end.

(** [s.trim()]. *)
Definition trim (s : jsstring) : jsstring :=
  rev (dropWhile isWhiteSpace (rev (dropWhile isWhiteSpace s))).

(** [s.split('\n')]: never empty, the empty string gives one empty line. *)
Fixpoint split_lines (s : jsstring) : list jsstring :=
  match s with
  | [] => [[]]
  | c :: s' =>
      if c =? LF then [] :: split_lines s'
      else match split_lines s' with
           | l :: ls => (c :: l) :: ls
           | [] => [[c]]
           end
  end.

(** ** The four explicit header patterns

    Each pattern is anchored at both ends, and each repetition is over a
    class that excludes the unit that follows it, so a match, when there
    is one, is unique: the repetition takes the longest run. *)

(** [/^\[([^\]]+)\]:?$/], group 1. *)
Definition bracketMatch (line : jsstring) : option jsstring :=
  match line with
  | c :: rest =>
      if c =? ch "[" then
        let inner := takeWhile (fun x => negb (x =? ch "]")) rest in
        match inner, dropWhile (fun x => negb (x =? ch "]")) rest with
        | _ :: _, _ :: tail =>
            if isEmpty tail || String_eqb tail [ch ":"] then Some inner else None
        | _, _ => None
        end
      else None
  | [] => None
  end.

(** [/^#+\s+(.+)$/], group 1.  After the hashes and the longest run of
    white space, [.+] must take everything that is left.  When nothing is
    left, [\s+] gives its last unit back to [.+]; giving back more never
    helps, since [.+] would still have to cross that last unit. *)
Definition mdMatch (line : jsstring) : option jsstring :=
  let isHash := fun x => x =? ch "#" in
  let afterHashes := dropWhile isHash line in
  let spaces := takeWhile isWhiteSpace afterHashes in
  let remainder := dropWhile isWhiteSpace afterHashes in
  match takeWhile isHash line, spaces with
  | _ :: _, _ :: _ =>
      match remainder with
      | _ :: _ =>
          if forallb (fun x => negb (isLineTerminator x)) remainder
          then Some remainder else None
      | [] =>
          match spaces with
          | _ :: _ :: _ =>
              let w := last spaces 0 in
              if isLineTerminator w then None else Some [w]
          | _ => None
          end
      end
  | _, _ => None
  end.

(** [/^\*\*([^*]+)\*\*:?$/], group 1. *)
Definition boldMatch (line : jsstring) : option jsstring :=
  match line with
  | a :: b :: rest =>
      if (a =? ch "*") && (b =? ch "*") then
        let inner := takeWhile (fun x => negb (x =? ch "*")) rest in
        match inner, dropWhile (fun x => negb (x =? ch "*")) rest with
        | _ :: _, c :: d :: tail =>
            if (c =? ch "*") && (d =? ch "*")
               && (isEmpty tail || String_eqb tail [ch ":"])
            then Some inner else None
        | _, _ => None
        end
      else None
  | _ => None
  end.

(** The class [[A-Za-z0-9 _/-]]. *)
Definition isLabelUnit (c : N) : bool :=
  ((65 <=? c) && (c <=? 90)) || ((97 <=? c) && (c <=? 122)) || isDigit c
  || (c =? ch " ") || (c =? ch "_") || (c =? ch "/") || (c =? ch "-").

(** [/^([A-Za-z0-9 _/-]+):$/], group 1. *)
Definition colonMatch (line : jsstring) : option jsstring :=
  let label := takeWhile isLabelUnit line in
  match label with
  | _ :: _ =>
      if String_eqb (dropWhile isLabelUnit line) [ch ":"] then Some label else None
  | [] => None
  end.

(** [/^(?:\d+\.|[-*•])\s/.test(s)]. *)
Definition isListItem (s : jsstring) : bool :=
  match s with
  | [] => false
  | c :: rest =>
      if isDigit c then
        match dropWhile isDigit rest with
        | dot :: w :: _ => (dot =? ch ".") && isWhiteSpace w
        | _ => false
        end
      else if (c =? ch "-") || (c =? ch "*") || (c =? BULLET) then
        match rest with
        | w :: _ => isWhiteSpace w
        | [] => false
        end
      else false
  end.

(** [/[.!?]$/.test(s)]. *)
Definition endsSentence (s : jsstring) : bool :=
  match rev s with
  | c :: _ => (c =? ch ".") || (c =? ch "!") || (c =? ch "?")
  | [] => false
  end.

(** A [string | null] used as a condition: [null] and the empty string
    are falsy. *)
Definition truthy (h : option jsstring) : bool :=
  match h with
  | Some (_ :: _) => true
  | _ => false
  end.

(** The chain [if (bracketMatch) ... else if (mdMatch) ... else if
    (boldMatch) ... else if (colonMatch && line.length < 50) ...].  A
    match object is truthy whatever it captured. *)
Definition explicitHeader (line : jsstring) : option jsstring :=
  match bracketMatch line with
  | Some h => Some h
  | None =>
      match mdMatch line with
      | Some h => Some h
      | None =>
          match boldMatch line with
          | Some h => Some h
          | None =>
              match colonMatch line with
              | Some h => if strlen line <? 50 then Some h else None
              | None => None
              end
          end
      end
  end.

(** ** The scope table: a plain object

    [Record<string, string[]>] at run time is an ordinary object.  Its own
    properties are listed here in creation order. *)

Definition object : Type := list (jsstring * list jsstring).

Fixpoint getOwn (o : object) (k : jsstring) : option (list jsstring) :=
  match o with
  | [] => None
  | (k', xs) :: o' => if String_eqb k' k then Some xs else getOwn o' k
  end.

(** The property names an object literal inherits from
    [Object.prototype]. *)
Definition prototypeNames : list jsstring :=
  map js [ "constructor"; "hasOwnProperty"; "isPrototypeOf";
           "propertyIsEnumerable"; "toLocaleString"; "toString"; "valueOf";
           "__proto__"; "__defineGetter__"; "__defineSetter__";
           "__lookupGetter__"; "__lookupSetter__" ]%string.

(** What [scopes[k]] can evaluate to: one of the arrays the pass stored,
    something inherited (a function, or the prototype itself), or
    [undefined]. *)
Inductive value : Type :=
| Bucket (xs : list jsstring)
| Inherited
| Undefined.

(** [scopes[k]]: own properties first, then the prototype. *)
Definition getProp (o : object) (k : jsstring) : value :=
  match getOwn o k with
  | Some xs => Bucket xs
  | None => if existsb (String_eqb k) prototypeNames then Inherited else Undefined
  end.

(** Arrays, functions and objects are truthy, [undefined] is not. *)
Definition isTruthy (v : value) : bool :=
  match v with
  | Undefined => false
  | _ => true
  end.

(** [scopes[k] = xs] where [k] is an own property or is not found at all:
    an existing property keeps its place, a new one goes last. *)
Fixpoint setOwn (o : object) (k : jsstring) (xs : list jsstring) : object :=
  match o with
  | [] => [(k, xs)]
  | (k', v) :: o' =>
      if String_eqb k' k then (k', xs) :: o' else (k', v) :: setOwn o' k xs
  end.

(** An array index is the canonical decimal form of an integer below
    2^32 - 1. *)
Definition arrayIndex (k : jsstring) : option N :=
  match k with
  | [] => None
  | c :: rest =>
      if forallb isDigit k && (negb (c =? ch "0") || isEmpty rest) then
        let n := fold_left (fun acc d => 10 * acc + (d - ch "0")) k 0 in
        if n <=? 4294967294 then Some n else None
      else None
  end.

Fixpoint indexKeys (ks : list jsstring) : list (N * jsstring) :=
  match ks with
  | [] => []
  | k :: ks' =>
      match arrayIndex k with
      | Some n => (n, k) :: indexKeys ks'
      | None => indexKeys ks'
      end
  end.

Fixpoint insertIndex (e : N * jsstring) (l : list (N * jsstring)) : list (N * jsstring) :=
  match l with
  | [] => [e]
  | e' :: l' => if fst e <=? fst e' then e :: l else e' :: insertIndex e l'
  end.

Definition sortIndices (l : list (N * jsstring)) : list (N * jsstring) :=
  fold_right insertIndex [] l.

Definition isNamedKey (k : jsstring) : bool :=
  match arrayIndex k with
  | None => true
  | Some _ => false
  end.

(** [Object.keys(o)]: the array indices in ascending numeric order, then
    the other string keys in creation order. *)
Definition Object_keys (o : object) : list jsstring :=
  map snd (sortIndices (indexKeys (map fst o))) ++ filter isNamedKey (map fst o).

(** ** Result and pass state *)

Record ScopedKnowledge : Type := {
  scopes : object;
  availableScopes : list jsstring
}.

(** The two variables of the pass: the table and [currentScope]. *)
Record state : Type := {
  st_scopes : object;
  currentScope : jsstring
}.

Definition GLOBAL_KEY : jsstring := js "GLOBAL CONTEXT".

Definition START_KNOWLEDGE : jsstring := js "START KNOWLEDGE".
Definition END_KNOWLEDGE : jsstring := js "END KNOWLEDGE".

(** [const scopes = { [GLOBAL_KEY]: [] }; let currentScope = GLOBAL_KEY]. *)
Definition initialState : state :=
  {| st_scopes := [(GLOBAL_KEY, [])]; currentScope := GLOBAL_KEY |}.

(** The early return for a falsy [rawRules]. *)
Definition emptyKnowledge : ScopedKnowledge :=
  {| scopes := [(GLOBAL_KEY, [])]; availableScopes := [GLOBAL_KEY] |}.

(** [{ scopes, availableScopes: Object.keys(scopes) }]. *)
Definition finish (st : state) : ScopedKnowledge :=
  {| scopes := st_scopes st; availableScopes := Object_keys (st_scopes st) |}.

(** ** Upper-casing on Basic Latin

    [String.prototype.toUpperCase] follows the Unicode case mappings.  The
    development takes it as a parameter [toUpperCase]; on text made of
    Basic Latin code units it is the function below. *)

Definition isLowerLatin (c : N) : bool := (97 <=? c) && (c <=? 122).

Definition upperUnit (c : N) : N := if isLowerLatin c then c - 32 else c.

Definition latinUpperCase (s : jsstring) : jsstring := map upperUnit s.

Definition isBasicLatin (s : jsstring) : bool := forallb (fun c => c <? 128) s.

(** No code unit of [s] is a lower-case Latin letter. *)
Definition noLowerLatin (s : jsstring) : bool :=
  forallb (fun c => negb (isLowerLatin c)) s.

(** ** Scoping, shared by both versions

    [None] stands for the [TypeError] that [push] on something other than
    an array would raise. *)

Section Scoping.

Variable toUpperCase : jsstring -> jsstring.

(** [detectedHeader.trim().toUpperCase()]. *)
Definition normalizeScope (detectedHeader : jsstring) : jsstring :=
  toUpperCase (trim detectedHeader).

(** [normalizedScope !== 'START KNOWLEDGE' && normalizedScope !== 'END KNOWLEDGE']. *)
Definition notSystemTag (normalizedScope : jsstring) : bool :=
  negb (String_eqb normalizedScope START_KNOWLEDGE)
  && negb (String_eqb normalizedScope END_KNOWLEDGE).

(** [scopes[currentScope].push(line)]. *)
Definition pushContent (line : jsstring) (st : state) : option state :=
  match getProp (st_scopes st) (currentScope st) with
  | Bucket xs =>
      Some {| st_scopes := setOwn (st_scopes st) (currentScope st) (xs ++ [line]);
              currentScope := currentScope st |}
  | _ => None
  end.

(** [currentScope = normalizedScope; if (!scopes[currentScope])
    scopes[currentScope] = []]. *)
Definition openScope (normalizedScope : jsstring) (st : state) : state :=
  if negb (isTruthy (getProp (st_scopes st) normalizedScope))
  then {| st_scopes := setOwn (st_scopes st) normalizedScope [];
          currentScope := normalizedScope |}
  else {| st_scopes := st_scopes st; currentScope := normalizedScope |}.

(** The block under "APPLY SCOPING". *)
Definition applyScoping (detectedHeader : option jsstring) (line : jsstring)
    (st : state) : option state :=
  match detectedHeader with
  | Some h =>
      if truthy detectedHeader then
        let normalizedScope := normalizeScope h in
        if notSystemTag normalizedScope
        then Some (openScope normalizedScope st)
        else Some st
      else pushContent line st
  | None => pushContent line st
  end.

End Scoping.

(** ** Version 2: explicit headers only

    In both versions [useMemo] returns what its callback returns; the
    callback is what is modelled. *)

Module V2.
Section Pass.

Variable toUpperCase : jsstring -> jsstring.

(** The callback of [lines.forEach]. *)
Definition visit (line : jsstring) (st : state) : option state :=
  let trimmed := trim line in
  if isEmpty trimmed then Some st
  else applyScoping toUpperCase (explicitHeader trimmed) trimmed st.

Fixpoint forEach (lines : list jsstring) (st : state) : option state :=
  match lines with
  | [] => Some st
  | line :: rest =>
      match visit line st with
      | Some st' => forEach rest st'
      | None => None
      end
  end.

Definition useKnowledgeScoper (rawRules : option jsstring) : option ScopedKnowledge :=
  match rawRules with
  | None => Some emptyKnowledge
  | Some [] => Some emptyKnowledge
  | Some raw => option_map finish (forEach (split_lines raw) initialState)
  end.

End Pass.
End V2.

(** ** Version 3: look-ahead for implicit headers *)

Module V3.
Section Pass.

Variable toUpperCase : jsstring -> jsstring.

(** The next non-blank line after the current one, trimmed, or the
    empty string when there is none.  [rest] is [lines] from index
    [i + 1] on. *)
Fixpoint nextLine (rest : list jsstring) : jsstring :=
  match rest with
  | [] => []
  | l :: rest' => if isEmpty (trim l) then nextLine rest' else trim l
  end.

(** The test of heuristic 2. *)
Definition looksLikeHeader (line : jsstring) (rest : list jsstring) : bool :=
  let isNextList := isListItem (nextLine rest) in
  let isCurrentList := isListItem line in
  let isShort := strlen line <? 60 in
  let isSentence := endsSentence line in
  isNextList && negb isCurrentList && isShort && negb isSentence.

(** Heuristic 1, then heuristic 2 when [!detectedHeader]. *)
Definition detectHeader (line : jsstring) (rest : list jsstring) : option jsstring :=
  let detectedHeader := explicitHeader line in
  if negb (truthy detectedHeader) then
    if looksLikeHeader line rest then Some line else detectedHeader
  else detectedHeader.

(** One turn of the [for] loop at [lines[i]], with the later lines. *)
Definition iteration (l : jsstring) (rest : list jsstring) (st : state) : option state :=
  let line := trim l in
  if isEmpty line then Some st
  else applyScoping toUpperCase (detectHeader line rest) line st.

Fixpoint loop (lines : list jsstring) (st : state) : option state :=
  match lines with
  | [] => Some st
  | l :: rest =>
      match iteration l rest st with
      | Some st' => loop rest st'
      | None => None
      end
  end.

Definition useKnowledgeScoper (rawRules : option jsstring) : option ScopedKnowledge :=
  match rawRules with
  | None => Some emptyKnowledge
  | Some [] => Some emptyKnowledge
  | Some raw => option_map finish (loop (split_lines raw) initialState)
  end.

End Pass.
End V3.

(** ** The inputs of the scenarios *)

Definition nl : jsstring := [LF].

(** ["Intro line\n[Rules]\n- do X\n- do Y"]. *)
Definition scenarioA : jsstring :=
  js "Intro line" ++ nl ++ js "[Rules]" ++ nl ++ js "- do X" ++ nl ++ js "- do Y".

(** ["Bonus 1\n1. Extra credit task"]. *)
Definition scenarioB : jsstring :=
  js "Bonus 1" ++ nl ++ js "1. Extra credit task".

(** ["This is a long sentence that ends with punctuation.\n- item"]. *)
Definition scenarioC : jsstring :=
  js "This is a long sentence that ends with punctuation." ++ nl ++ js "- item".

(** ["START KNOWLEDGE\nRule A\nEND KNOWLEDGE"]. *)
Definition scenarioD : jsstring :=
  js "START KNOWLEDGE" ++ nl ++ js "Rule A" ++ nl ++ js "END KNOWLEDGE".

(** A header, another one, and the first again in other letter case and
    with white space around its text:
    ["[Rules]\n- a\n[Other]\n- b\n[ rUles ]\n- c"]. *)
Definition scenarioRepeated : jsstring :=
  js "[Rules]" ++ nl ++ js "- a" ++ nl ++ js "[Other]" ++ nl ++ js "- b"
  ++ nl ++ js "[ rUles ]" ++ nl ++ js "- c".

(** ** Vocabulary of the properties *)

(** The bucket that a content line would be pushed to exists. *)
Definition bucketExists (st : state) : Prop :=
  exists xs, getOwn (st_scopes st) (currentScope st) = Some xs.

(** A result is well formed when its key list is the key list of its
    table, no scope is listed twice, and the global bucket is there. *)
Definition wellFormed (r : ScopedKnowledge) : Prop :=
  availableScopes r = Object_keys (scopes r)
  /\ NoDup (availableScopes r)
  /\ exists xs, getOwn (scopes r) GLOBAL_KEY = Some xs.

(** What every pass keeps true of the table: keys are distinct, the global
    key is one of them, and neither system tag is. *)
Definition tableSound (o : object) : Prop :=
  NoDup (map fst o)
  /\ In GLOBAL_KEY (map fst o)
  /\ ~ In START_KNOWLEDGE (map fst o)
  /\ ~ In END_KNOWLEDGE (map fst o).

(** A list item in the words of the specification: a digit sequence and a
    period, or one of [-], [*], [•], followed by white space. *)
Definition ListItemShape (s : jsstring) : Prop :=
  (exists ds w tail,
      ds <> [] /\ forallb isDigit ds = true /\ isWhiteSpace w = true
      /\ s = ds ++ ch "." :: w :: tail)
  \/ (exists c w tail,
      (c = ch "-" \/ c = ch "*" \/ c = BULLET) /\ isWhiteSpace w = true
      /\ s = c :: w :: tail).

(** The next non-blank line exists and, trimmed, is a list item. *)
Definition NextIsListItem (rest : list jsstring) : Prop :=
  exists blanks l after,
    rest = blanks ++ l :: after
    /\ Forall (fun b => trim b = []) blanks
    /\ ListItemShape (trim l).

(** The last code unit is [.], [!] or [?]. *)
Definition EndsInPunctuation (s : jsstring) : Prop :=
  exists front c, s = front ++ [c] /\ (c = ch "." \/ c = ch "!" \/ c = ch "?").

(** Only white space. *)
Definition Blank (w : jsstring) : Prop := forallb isWhiteSpace w = true.

(** No white space at either end. *)
Definition NoOuterSpace (t : jsstring) : Prop :=
  (forall c t', t = c :: t' -> isWhiteSpace c = false)
  /\ (forall c t', t = t' ++ [c] -> isWhiteSpace c = false).

Module V3Aux.

(** No non-blank line is an implicit header: each one either matches an
    explicit pattern or fails the look-ahead test. *)
Fixpoint noImplicitHeader (lines : list jsstring) : bool :=
  match lines with
  | [] => true
  | l :: rest =>
      let line := trim l in
      (isEmpty line || truthy (explicitHeader line)
       || negb (V3.looksLikeHeader line rest))
      && noImplicitHeader rest
  end.

(** The texts handed to [toUpperCase] during the pass, in order. *)
Fixpoint upperCased (lines : list jsstring) : list jsstring :=
  match lines with
  | [] => []
  | l :: rest =>
      let line := trim l in
      if isEmpty line then upperCased rest
      else match V3.detectHeader line rest with
           | Some h => if isEmpty h then upperCased rest else trim h :: upperCased rest
           | None => upperCased rest
           end
  end.

End V3Aux.

(** ** Vocabulary of the further properties *)

(** What is left of the lines once each is trimmed and the blank ones are
    put aside. *)
Definition significantLines (lines : list jsstring) : list jsstring :=
  filter (fun l => negb (isEmpty l)) (map trim lines).

(** The same text with every line feed preceded by a carriage return. *)
Definition crlf (s : jsstring) : jsstring :=
  flat_map (fun c => if c =? LF then [13; LF] else [c]) s.

(** What a line turns out to be once it is trimmed and a header has or
    has not been detected on it. *)
Inductive lineKind : Type :=
| BlankLine
| TagLine
| HeaderLine (key : jsstring)
| ContentLine (text : jsstring).

Section Kinds.

Variable toUpperCase : jsstring -> jsstring.

Definition kindOf (detectedHeader : option jsstring) (line : jsstring) : lineKind :=
  if isEmpty line then BlankLine
  else match detectedHeader with
       | Some (c :: h) =>
           if notSystemTag (normalizeScope toUpperCase (c :: h))
           then HeaderLine (normalizeScope toUpperCase (c :: h))
           else TagLine
       | _ => ContentLine line
       end.

(** The kinds of the lines as version 3 sees them, and as version 2
    does. *)
Fixpoint kindsV3 (lines : list jsstring) : list lineKind :=
  match lines with
  | [] => []
  | l :: rest => kindOf (V3.detectHeader (trim l) rest) (trim l) :: kindsV3 rest
  end.

Definition kindsV2 (lines : list jsstring) : list lineKind :=
  map (fun l => kindOf (explicitHeader (trim l)) (trim l)) lines.

End Kinds.

(** What a line of a given kind does to the state. *)
Definition act (kind : lineKind) (st : state) : option state :=
  match kind with
  | BlankLine => Some st
  | TagLine => Some st
  | HeaderLine key => Some (openScope key st)
  | ContentLine text => pushContent text st
  end.

Fixpoint run (kinds : list lineKind) (st : state) : option state :=
  match kinds with
  | [] => Some st
  | kind :: rest =>
      match act kind st with
      | Some st' => run rest st'
      | None => None
      end
  end.

(** The content lines read while [k] is the current scope, [cur] being
    the scope at the start. *)
Fixpoint filedUnder (k cur : jsstring) (kinds : list lineKind) : list jsstring :=
  match kinds with
  | [] => []
  | BlankLine :: rest => filedUnder k cur rest
  | TagLine :: rest => filedUnder k cur rest
  | HeaderLine key :: rest => filedUnder k key rest
  | ContentLine text :: rest =>
      if String_eqb cur k then text :: filedUnder k cur rest
      else filedUnder k cur rest
  end.

(** The keys of the header lines and the texts of the content lines, in
    input order. *)
Fixpoint headerKeys (kinds : list lineKind) : list jsstring :=
  match kinds with
  | [] => []
  | HeaderLine key :: rest => key :: headerKeys rest
  | _ :: rest => headerKeys rest
  end.

Fixpoint contentLines (kinds : list lineKind) : list jsstring :=
  match kinds with
  | [] => []
  | ContentLine text :: rest => text :: contentLines rest
  | _ :: rest => contentLines rest
  end.

(** A list of names with a name added at the end unless it is there
    already, and the names of a list in order of first appearance. *)
Definition addKey (ks : list jsstring) (k : jsstring) : list jsstring :=
  if existsb (String_eqb k) ks then ks else ks ++ [k].

Definition firstAppearances (ks : list jsstring) : list jsstring :=
  fold_left addKey ks [].

(** The number an array-index key stands for, 0 for other keys. *)
Definition indexValue (k : jsstring) : N :=
  match arrayIndex k with
  | Some n => n
  | None => 0
  end.

(** The content of the bucket of [k], empty when there is none. *)
Definition bucketOf (o : object) (k : jsstring) : list jsstring :=
  match getOwn o k with
  | Some xs => xs
  | None => []
  end.

(** * Properties *)

(** ** Strings *)

Lemma String_eqb_eq (s t : jsstring) : String_eqb s t = true <-> s = t.
Proof.
  revert t; induction s as [|a s IH]; intros [|b t]; simpl; split;
    try congruence; try reflexivity.
  - intros H. apply andb_true_iff in H as [Hab Hst].
    apply N.eqb_eq in Hab. apply IH in Hst. congruence.
  - intros H. injection H as -> ->. rewrite N.eqb_refl. simpl. now apply IH.
Qed.

Lemma String_eqb_refl (s : jsstring) : String_eqb s s = true.
Proof. now apply String_eqb_eq. Qed.

Lemma String_eqb_neq (s t : jsstring) : String_eqb s t = false <-> s <> t.
Proof.
  split.
  - intros H E. apply String_eqb_eq in E. congruence.
  - intros H. destruct (String_eqb s t) eqn:E; [|reflexivity].
    apply String_eqb_eq in E. contradiction.
Qed.

Lemma isEmpty_true (s : jsstring) : isEmpty s = true <-> s = [].
Proof. destruct s; simpl; split; congruence. Qed.

Lemma take_drop (p : N -> bool) (s : jsstring) :
  takeWhile p s ++ dropWhile p s = s.
Proof.
  induction s as [|c s IH]; simpl; [reflexivity|].
  destruct (p c); simpl; [now rewrite IH | reflexivity].
Qed.

Lemma takeWhile_all (p : N -> bool) (s : jsstring) :
  forallb p (takeWhile p s) = true.
Proof.
  induction s as [|c s IH]; simpl; [reflexivity|].
  destruct (p c) eqn:E; simpl; [now rewrite E | reflexivity].
Qed.

Lemma dropWhile_head (p : N -> bool) (s : jsstring) c t :
  dropWhile p s = c :: t -> p c = false.
Proof.
  induction s as [|a s IH]; simpl; [discriminate|].
  destruct (p a) eqn:E; [exact IH | congruence].
Qed.

Lemma dropWhile_app_stop (p : N -> bool) (front : jsstring) c t :
  forallb p front = true -> p c = false ->
  dropWhile p (front ++ c :: t) = c :: t.
Proof.
  induction front as [|a front IH]; simpl; intros Hall Hc.
  - now rewrite Hc.
  - apply andb_true_iff in Hall as [Ha Hall]. rewrite Ha. now apply IH.
Qed.

Lemma takeWhile_app_stop (p : N -> bool) (front : jsstring) c t :
  forallb p front = true -> p c = false ->
  takeWhile p (front ++ c :: t) = front.
Proof.
  induction front as [|a front IH]; simpl; intros Hall Hc.
  - now rewrite Hc.
  - apply andb_true_iff in Hall as [Ha Hall]. rewrite Ha. f_equal. now apply IH.
Qed.

Lemma dropWhile_all (p : N -> bool) (s : jsstring) :
  forallb p s = true -> dropWhile p s = [].
Proof.
  induction s as [|a s IH]; simpl; [reflexivity|].
  intros H. apply andb_true_iff in H as [Ha H]. rewrite Ha. now apply IH.
Qed.

Lemma forallb_rev (p : N -> bool) (s : jsstring) :
  forallb p (rev s) = forallb p s.
Proof.
  induction s as [|a s IH]; simpl; [reflexivity|].
  rewrite forallb_app, IH. simpl. rewrite andb_true_r. apply andb_comm.
Qed.

(** [trim] removes exactly the white space around a core that has none at
    its ends. *)
Lemma trim_surrounded (w t w' : jsstring) :
  Blank w -> Blank w' -> NoOuterSpace t -> trim (w ++ t ++ w') = t.
Proof.
  unfold Blank, NoOuterSpace, trim. intros Hw Hw' [Hfirst Hlast].
  destruct t as [|c t].
  - simpl. rewrite (dropWhile_all isWhiteSpace (w ++ w')); [reflexivity|].
    rewrite forallb_app. now rewrite Hw, Hw'.
  - assert (Hc : isWhiteSpace c = false) by (eapply Hfirst; reflexivity).
    rewrite <- app_comm_cons.
    rewrite dropWhile_app_stop by assumption.
    change (c :: t ++ w') with ((c :: t) ++ w').
    rewrite rev_app_distr.
    destruct (exists_last (l := c :: t)) as (front & z & Hz); [discriminate|].
    assert (Hzw : isWhiteSpace z = false) by (eapply Hlast; exact Hz).
    rewrite Hz, rev_app_distr. simpl.
    rewrite dropWhile_app_stop; [| now rewrite forallb_rev | assumption].
    simpl. now rewrite rev_involutive.
Qed.

Lemma dropWhile_snoc (p : N -> bool) (s : jsstring) c :
  p c = false -> dropWhile p (s ++ [c]) = dropWhile p s ++ [c].
Proof.
  intros Hc. induction s as [|a s IH]; simpl.
  - now rewrite Hc.
  - destruct (p a); [exact IH | reflexivity].
Qed.

(** What [trim] returns has no white space left at either end. *)
Lemma trim_NoOuterSpace (s : jsstring) : NoOuterSpace (trim s).
Proof.
  unfold trim. split; intros c t' E.
  - destruct (dropWhile isWhiteSpace s) as [|x front] eqn:X; [discriminate E|].
    apply dropWhile_head in X. simpl in E.
    rewrite (dropWhile_snoc _ _ _ X), rev_app_distr in E. simpl in E.
    now injection E as <- _.
  - apply (f_equal (@rev N)) in E. rewrite rev_involutive, rev_app_distr in E.
    simpl in E. eapply dropWhile_head, E.
Qed.

Lemma trim_idempotent (s : jsstring) : trim (trim s) = trim s.
Proof.
  rewrite <- (app_nil_r (trim s)) at 1.
  apply (trim_surrounded [] (trim s) []); try reflexivity.
  apply trim_NoOuterSpace.
Qed.

(** ** The object *)

Lemma getOwn_setOwn_same (o : object) k xs : getOwn (setOwn o k xs) k = Some xs.
Proof.
  induction o as [|[k' v] o IH]; simpl.
  - now rewrite String_eqb_refl.
  - destruct (String_eqb k' k) eqn:E; simpl; rewrite E; [reflexivity | exact IH].
Qed.

Lemma getOwn_setOwn_other (o : object) k xs k' :
  k' <> k -> getOwn (setOwn o k xs) k' = getOwn o k'.
Proof.
  intros Hne. induction o as [|[k0 v] o IH]; simpl.
  - assert (String_eqb k k' = false) as -> by (apply String_eqb_neq; congruence).
    reflexivity.
  - destruct (String_eqb k0 k) eqn:E; simpl.
    + apply String_eqb_eq in E. subst k0.
      assert (String_eqb k k' = false) as -> by (apply String_eqb_neq; congruence).
      reflexivity.
    + destruct (String_eqb k0 k'); [reflexivity | exact IH].
Qed.

Lemma getOwn_None (o : object) k : getOwn o k = None <-> ~ In k (map fst o).
Proof.
  induction o as [|[k' v] o IH]; simpl.
  - tauto.
  - destruct (String_eqb k' k) eqn:E.
    + apply String_eqb_eq in E. split; [discriminate | tauto].
    + apply String_eqb_neq in E. rewrite IH. tauto.
Qed.

Lemma getOwn_Some_In (o : object) k xs : getOwn o k = Some xs -> In k (map fst o).
Proof.
  intros H. destruct (in_dec (list_eq_dec N.eq_dec) k (map fst o)) as [Hin|Hout].
  - exact Hin.
  - apply getOwn_None in Hout. congruence.
Qed.

Lemma In_getOwn (o : object) k : In k (map fst o) -> exists xs, getOwn o k = Some xs.
Proof.
  intros Hin. destruct (getOwn o k) as [xs|] eqn:E.
  - now exists xs.
  - apply getOwn_None in E. contradiction.
Qed.

(** Assignment replaces in place or creates the property last. *)
Lemma keys_setOwn (o : object) k xs :
  map fst (setOwn o k xs)
  = match getOwn o k with
    | Some _ => map fst o
    | None => map fst o ++ [k]
    end.
Proof.
  induction o as [|[k' v] o IH]; simpl; [reflexivity|].
  destruct (String_eqb k' k) eqn:E; simpl; [reflexivity|].
  rewrite IH. now destruct (getOwn o k).
Qed.

Lemma insertIndex_perm e l : Permutation (insertIndex e l) (e :: l).
Proof.
  induction l as [|e' l IH]; simpl; [apply Permutation_refl|].
  destruct (fst e <=? fst e').
  - apply Permutation_refl.
  - eapply perm_trans; [apply perm_skip, IH | apply perm_swap].
Qed.

Lemma sortIndices_perm l : Permutation (sortIndices l) l.
Proof.
  induction l as [|e l IH]; simpl; [constructor|].
  eapply perm_trans; [apply insertIndex_perm | now apply perm_skip].
Qed.

Lemma indexKeys_snd ks :
  map snd (indexKeys ks) = filter (fun k => negb (isNamedKey k)) ks.
Proof.
  induction ks as [|k ks IH]; simpl; [reflexivity|].
  unfold isNamedKey. destruct (arrayIndex k); simpl; now rewrite IH.
Qed.

Lemma filter_split_perm (p : jsstring -> bool) ks :
  Permutation (filter (fun k => negb (p k)) ks ++ filter p ks) ks.
Proof.
  induction ks as [|k ks IH]; simpl; [constructor|].
  destruct (p k); simpl.
  - apply Permutation_sym, Permutation_cons_app, Permutation_sym, IH.
  - now apply perm_skip.
Qed.

(** [Object.keys] lists every own key once: it is a rearrangement of the
    creation order. *)
Lemma Object_keys_perm (o : object) : Permutation (Object_keys o) (map fst o).
Proof.
  unfold Object_keys.
  eapply perm_trans; [| apply (filter_split_perm isNamedKey)].
  apply Permutation_app_tail.
  rewrite <- indexKeys_snd. apply Permutation_map, sortIndices_perm.
Qed.

Lemma Object_keys_In (o : object) k : In k (Object_keys o) <-> In k (map fst o).
Proof.
  split; apply Permutation_in; [| apply Permutation_sym]; apply Object_keys_perm.
Qed.

Lemma Object_keys_same_keys (o o' : object) :
  map fst o = map fst o' -> Object_keys o = Object_keys o'.
Proof. unfold Object_keys. now intros ->. Qed.

(** Without array-index keys, [Object.keys] is the creation order. *)
Lemma Object_keys_named (o : object) :
  forallb isNamedKey (map fst o) = true -> Object_keys o = map fst o.
Proof.
  unfold Object_keys. generalize (map fst o) as ks. intros ks H.
  assert (E : indexKeys ks = [] /\ filter isNamedKey ks = ks).
  { induction ks as [|k ks IH]; simpl; [now split|].
    simpl in H. apply andb_true_iff in H as [Hk Hks].
    rewrite Hk. unfold isNamedKey in Hk.
    destruct (arrayIndex k); [discriminate|].
    destruct (IH Hks) as [-> ->]. now split. }
  destruct E as [-> ->]. reflexivity.
Qed.

(** Every name on the prototype has a lower-case Latin letter. *)
Lemma prototypeNames_lower (k : jsstring) :
  existsb (String_eqb k) prototypeNames = true -> noLowerLatin k = false.
Proof.
  intros H. apply existsb_exists in H as (name & Hin & Heq).
  apply String_eqb_eq in Heq. subst name.
  unfold prototypeNames in Hin. simpl in Hin.
  repeat (destruct Hin as [<-|Hin]; [reflexivity|]). contradiction.
Qed.

(** ** One line of scoping *)

Lemma notSystemTag_true k :
  notSystemTag k = true <-> k <> START_KNOWLEDGE /\ k <> END_KNOWLEDGE.
Proof.
  unfold notSystemTag. rewrite andb_true_iff, !negb_true_iff, !String_eqb_neq.
  tauto.
Qed.

Lemma notSystemTag_false k :
  notSystemTag k = false <-> k = START_KNOWLEDGE \/ k = END_KNOWLEDGE.
Proof.
  unfold notSystemTag. rewrite andb_false_iff, !negb_false_iff, !String_eqb_eq.
  tauto.
Qed.

Lemma pushContent_Some line st st' :
  pushContent line st = Some st' ->
  exists xs,
    getOwn (st_scopes st) (currentScope st) = Some xs
    /\ st' = {| st_scopes := setOwn (st_scopes st) (currentScope st) (xs ++ [line]);
                currentScope := currentScope st |}.
Proof.
  unfold pushContent, getProp.
  destruct (getOwn (st_scopes st) (currentScope st)) as [xs|] eqn:E.
  - intros [= <-]. now exists xs.
  - destruct (existsb _ _); discriminate.
Qed.

Lemma pushContent_keys line st st' :
  pushContent line st = Some st' ->
  map fst (st_scopes st') = map fst (st_scopes st)
  /\ currentScope st' = currentScope st.
Proof.
  intros H. apply pushContent_Some in H as (xs & E & ->). simpl.
  now rewrite keys_setOwn, E.
Qed.

(** Opening a scope either finds the key or creates it last. *)
Lemma openScope_keys k st :
  currentScope (openScope k st) = k
  /\ ((In k (map fst (st_scopes st)) \/ existsb (String_eqb k) prototypeNames = true)
      /\ st_scopes (openScope k st) = st_scopes st
      \/ ~ In k (map fst (st_scopes st))
         /\ st_scopes (openScope k st) = setOwn (st_scopes st) k []
         /\ map fst (st_scopes (openScope k st)) = map fst (st_scopes st) ++ [k]).
Proof.
  unfold openScope, getProp.
  destruct (getOwn (st_scopes st) k) as [xs|] eqn:E;
    [| destruct (existsb (String_eqb k) prototypeNames) eqn:P];
    cbn [isTruthy negb st_scopes currentScope].
  - split; [reflexivity|]. left. split; [|reflexivity].
    left. eapply getOwn_Some_In, E.
  - split; [reflexivity|]. left. now split; [right|].
  - split; [reflexivity|]. right. rewrite keys_setOwn, E.
      repeat split. now apply getOwn_None.
Qed.

Section ScopingFacts.

Variable toUpperCase : jsstring -> jsstring.

(** The three things a line can do to the state. *)
Lemma applyScoping_cases d line st st' :
  applyScoping toUpperCase d line st = Some st' ->
  (exists h, d = Some h /\ h <> []
             /\ notSystemTag (normalizeScope toUpperCase h) = false /\ st' = st)
  \/ (exists h, d = Some h /\ h <> []
                /\ notSystemTag (normalizeScope toUpperCase h) = true
                /\ st' = openScope (normalizeScope toUpperCase h) st)
  \/ (truthy d = false /\ pushContent line st = Some st').
Proof.
  unfold applyScoping. destruct d as [[|c h]|]; simpl.
  - intros H. right. right. now split.
  - destruct (notSystemTag _) eqn:T; intros [= <-].
    + right. left. exists (c :: h). repeat split; [discriminate | exact T].
    + left. exists (c :: h). repeat split; [discriminate | exact T].
  - intros H. right. right. now split.
Qed.

(** Keys are only ever added, and at the end. *)
Lemma applyScoping_keys_extend d line st st' :
  applyScoping toUpperCase d line st = Some st' ->
  exists new, map fst (st_scopes st') = map fst (st_scopes st) ++ new.
Proof.
  intros H. apply applyScoping_cases in H
    as [(h & _ & _ & _ & ->) | [(h & _ & _ & _ & ->) | (_ & H)]].
  - exists []. now rewrite app_nil_r.
  - destruct (openScope_keys (normalizeScope toUpperCase h) st)
      as (_ & [(_ & ->) | (_ & _ & ->)]).
    + exists []. now rewrite app_nil_r.
    + now eexists.
  - apply pushContent_keys in H as [-> _]. exists []. now rewrite app_nil_r.
Qed.

Lemma applyScoping_sound d line st st' :
  tableSound (st_scopes st) ->
  applyScoping toUpperCase d line st = Some st' ->
  tableSound (st_scopes st').
Proof.
  intros S H. apply applyScoping_cases in H
    as [(h & _ & _ & _ & ->) | [(h & _ & _ & T & ->) | (_ & H)]].
  - exact S.
  - apply notSystemTag_true in T as [T1 T2].
    destruct (openScope_keys (normalizeScope toUpperCase h) st)
      as (_ & [(_ & ->) | (Hnew & _ & E)]); [exact S|].
    destruct S as (Hnd & Hg & Hs & He). unfold tableSound. rewrite E.
    repeat split.
    + apply NoDup_app_remove_l with (l := []). simpl.
      apply Permutation_NoDup with (l := normalizeScope toUpperCase h :: map fst (st_scopes st)).
      * apply Permutation_cons_append.
      * now constructor.
    + apply in_or_app. now left.
    + intros Hin. apply in_app_or in Hin as [Hin | [Hin | []]]; congruence.
    + intros Hin. apply in_app_or in Hin as [Hin | [Hin | []]]; congruence.
  - apply pushContent_keys in H as [E _]. unfold tableSound. now rewrite E.
Qed.

(** A header line carrying a system tag leaves the state as it is. *)
Lemma applyScoping_tag h line st :
  h <> [] ->
  normalizeScope toUpperCase h = START_KNOWLEDGE
  \/ normalizeScope toUpperCase h = END_KNOWLEDGE ->
  applyScoping toUpperCase (Some h) line st = Some st.
Proof.
  intros Hh T. apply notSystemTag_false in T.
  unfold applyScoping. destruct h as [|c h]; [contradiction|]. simpl.
  now rewrite T.
Qed.

(** A header whose key is already in the table only selects it. *)
Lemma applyScoping_known h line st xs :
  h <> [] ->
  notSystemTag (normalizeScope toUpperCase h) = true ->
  getOwn (st_scopes st) (normalizeScope toUpperCase h) = Some xs ->
  applyScoping toUpperCase (Some h) line st
  = Some {| st_scopes := st_scopes st;
            currentScope := normalizeScope toUpperCase h |}.
Proof.
  intros Hh T E. unfold applyScoping. destruct h as [|c h]; [contradiction|].
  simpl. rewrite T. unfold openScope, getProp. now rewrite E.
Qed.

Hypothesis toUpperCase_no_lower : forall s, noLowerLatin (toUpperCase s) = true.

(** With upper-cased keys no lookup ever reaches the prototype, so the
    current bucket always exists and [push] cannot fail. *)
Lemma applyScoping_total d line st :
  bucketExists st ->
  exists st', applyScoping toUpperCase d line st = Some st' /\ bucketExists st'.
Proof.
  intros [xs E].
  assert (Hpush : exists st', pushContent line st = Some st' /\ bucketExists st').
  { unfold pushContent, getProp. rewrite E. eexists. split; [reflexivity|].
    eexists. simpl. apply getOwn_setOwn_same. }
  unfold applyScoping. destruct d as [[|c h]|]; simpl; try exact Hpush.
  destruct (notSystemTag _); [| exists st; split; [reflexivity | now exists xs]].
  eexists. split; [reflexivity|].
  destruct (openScope_keys (normalizeScope toUpperCase (c :: h)) st)
    as (Hc & [([Hin | Hproto] & Ho) | (_ & Ho & _)]); unfold bucketExists;
    rewrite Hc, Ho.
  - now apply In_getOwn.
  - apply prototypeNames_lower in Hproto. unfold normalizeScope in Hproto.
    rewrite toUpperCase_no_lower in Hproto. discriminate.
  - eexists. apply getOwn_setOwn_same.
Qed.

End ScopingFacts.

(** ** The passes *)

Lemma initialState_sound : tableSound (st_scopes initialState).
Proof.
  unfold tableSound. simpl. repeat split.
  - constructor; [intros [] | constructor].
  - now left.
  - intros [H | []]. discriminate H.
  - intros [H | []]. discriminate H.
Qed.

Lemma initialState_bucket : bucketExists initialState.
Proof. exists []. reflexivity. Qed.

Lemma finish_wellFormed st :
  tableSound (st_scopes st) -> wellFormed (finish st).
Proof.
  intros (Hnd & Hg & _). unfold wellFormed, finish. simpl. repeat split.
  - eapply Permutation_NoDup; [apply Permutation_sym, Object_keys_perm | exact Hnd].
  - now apply In_getOwn.
Qed.

Lemma emptyKnowledge_wellFormed : wellFormed emptyKnowledge.
Proof. exact (finish_wellFormed initialState initialState_sound). Qed.

Section PassFacts.

Variable toUpperCase : jsstring -> jsstring.

(** Anything that scoping one line preserves, the whole pass preserves. *)
Lemma V3_loop_preserves (P : state -> Prop) :
  (forall d line st st',
      P st -> applyScoping toUpperCase d line st = Some st' -> P st') ->
  forall lines st st',
    P st -> V3.loop toUpperCase lines st = Some st' -> P st'.
Proof.
  intros Hstep lines. induction lines as [|l rest IH]; simpl; intros st st' HP H.
  - now injection H as <-.
  - unfold V3.iteration in H. destruct (isEmpty (trim l)).
    + eapply IH; eassumption.
    + destruct (applyScoping toUpperCase _ (trim l) st) as [st1|] eqn:E;
        [|discriminate].
      eapply IH; [|exact H]. eapply Hstep; eassumption.
Qed.

Lemma V2_forEach_preserves (P : state -> Prop) :
  (forall d line st st',
      P st -> applyScoping toUpperCase d line st = Some st' -> P st') ->
  forall lines st st',
    P st -> V2.forEach toUpperCase lines st = Some st' -> P st'.
Proof.
  intros Hstep lines. induction lines as [|l rest IH]; simpl; intros st st' HP H.
  - now injection H as <-.
  - unfold V2.visit in H. destruct (isEmpty (trim l)).
    + eapply IH; eassumption.
    + destruct (applyScoping toUpperCase _ (trim l) st) as [st1|] eqn:E;
        [|discriminate].
      eapply IH; [|exact H]. eapply Hstep; eassumption.
Qed.

Lemma V3_loop_sound lines st st' :
  tableSound (st_scopes st) -> V3.loop toUpperCase lines st = Some st' ->
  tableSound (st_scopes st').
Proof.
  apply (V3_loop_preserves (fun s => tableSound (st_scopes s))).
  intros d line s s'. apply applyScoping_sound.
Qed.

Lemma V2_forEach_sound lines st st' :
  tableSound (st_scopes st) -> V2.forEach toUpperCase lines st = Some st' ->
  tableSound (st_scopes st').
Proof.
  apply (V2_forEach_preserves (fun s => tableSound (st_scopes s))).
  intros d line s s'. apply applyScoping_sound.
Qed.

(** The creation order at any point is a prefix of the final one. *)
Lemma V3_loop_keys_extend lines st st' :
  V3.loop toUpperCase lines st = Some st' ->
  exists new, map fst (st_scopes st') = map fst (st_scopes st) ++ new.
Proof.
  apply (V3_loop_preserves
           (fun s => exists new, map fst (st_scopes s) = map fst (st_scopes st) ++ new)).
  - intros d line s s' [new E] H.
    apply applyScoping_keys_extend in H as [more E'].
    exists (new ++ more). now rewrite E', E, app_assoc.
  - exists []. now rewrite app_nil_r.
Qed.

Lemma V3_result_sound raw r :
  V3.useKnowledgeScoper toUpperCase raw = Some r ->
  wellFormed r /\ tableSound (scopes r).
Proof.
  assert (Hempty : wellFormed emptyKnowledge /\ tableSound (scopes emptyKnowledge))
    by (split; [apply emptyKnowledge_wellFormed | apply initialState_sound]).
  unfold V3.useKnowledgeScoper. destruct raw as [[|c raw]|];
    try (intros [= <-]; exact Hempty).
  destruct (V3.loop toUpperCase _ initialState) as [st|] eqn:E; [|discriminate].
  intros [= <-]. apply V3_loop_sound in E; [|apply initialState_sound].
  split; [now apply finish_wellFormed | exact E].
Qed.

Lemma V2_result_sound raw r :
  V2.useKnowledgeScoper toUpperCase raw = Some r ->
  wellFormed r /\ tableSound (scopes r).
Proof.
  assert (Hempty : wellFormed emptyKnowledge /\ tableSound (scopes emptyKnowledge))
    by (split; [apply emptyKnowledge_wellFormed | apply initialState_sound]).
  unfold V2.useKnowledgeScoper. destruct raw as [[|c raw]|];
    try (intros [= <-]; exact Hempty).
  destruct (V2.forEach toUpperCase _ initialState) as [st|] eqn:E; [|discriminate].
  intros [= <-]. apply V2_forEach_sound in E; [|apply initialState_sound].
  split; [now apply finish_wellFormed | exact E].
Qed.

Hypothesis toUpperCase_no_lower : forall s, noLowerLatin (toUpperCase s) = true.

Lemma V3_iteration_total l rest st :
  bucketExists st ->
  exists st', V3.iteration toUpperCase l rest st = Some st' /\ bucketExists st'.
Proof.
  intros B. unfold V3.iteration. destruct (isEmpty (trim l)).
  - now exists st.
  - now apply applyScoping_total.
Qed.

Lemma V3_loop_total lines st :
  bucketExists st ->
  exists st', V3.loop toUpperCase lines st = Some st' /\ bucketExists st'.
Proof.
  revert st. induction lines as [|l rest IH]; simpl; intros st B.
  - now exists st.
  - destruct (V3_iteration_total l rest st B) as (st1 & -> & B1). now apply IH.
Qed.

Lemma V2_forEach_total lines st :
  bucketExists st ->
  exists st', V2.forEach toUpperCase lines st = Some st' /\ bucketExists st'.
Proof.
  revert st. induction lines as [|l rest IH]; simpl; intros st B.
  - now exists st.
  - assert (exists st1, V2.visit toUpperCase l st = Some st1 /\ bucketExists st1)
      as (st1 & -> & B1).
    { unfold V2.visit. destruct (isEmpty (trim l)).
      - now exists st.
      - now apply applyScoping_total. }
    now apply IH.
Qed.

Lemma V3_returns raw : exists r, V3.useKnowledgeScoper toUpperCase raw = Some r.
Proof.
  unfold V3.useKnowledgeScoper. destruct raw as [[|c raw]|]; try (now eexists).
  destruct (V3_loop_total (split_lines (c :: raw)) initialState initialState_bucket)
    as (st & -> & _).
  now eexists.
Qed.

Lemma V2_returns raw : exists r, V2.useKnowledgeScoper toUpperCase raw = Some r.
Proof.
  unfold V2.useKnowledgeScoper. destruct raw as [[|c raw]|]; try (now eexists).
  destruct (V2_forEach_total (split_lines (c :: raw)) initialState initialState_bucket)
    as (st & -> & _).
  now eexists.
Qed.

End PassFacts.

(** The Basic Latin upper-casing never yields a lower-case Latin letter. *)
Lemma latinUpperCase_no_lower s : noLowerLatin (latinUpperCase s) = true.
Proof.
  unfold noLowerLatin, latinUpperCase. apply forallb_forall.
  intros u Hu. apply in_map_iff in Hu as (c & <- & _).
  unfold upperUnit, isLowerLatin.
  destruct ((97 <=? c) && (c <=? 122)) eqn:E.
  - apply andb_true_iff in E as [E1 E2].
    apply N.leb_le in E1. apply N.leb_le in E2.
    apply negb_true_iff, andb_false_iff. left. apply N.leb_gt. lia.
  - now rewrite E.
Qed.

(** The pass depends on [toUpperCase] only through the header texts it is
    applied to. *)
Lemma V3_loop_ext (f g : jsstring -> jsstring) lines st :
  (forall h, In h (V3Aux.upperCased lines) -> f h = g h) ->
  V3.loop f lines st = V3.loop g lines st.
Proof.
  revert st. induction lines as [|l rest IH]; simpl; intros st Hfg; [reflexivity|].
  unfold V3.iteration. destruct (isEmpty (trim l)); [now apply IH|].
  destruct (V3.detectHeader (trim l) rest) as [[|c h]|]; simpl in *.
  - destruct (pushContent (trim l) st); [now apply IH | reflexivity].
  - unfold normalizeScope. rewrite (Hfg (trim (c :: h))) by now left.
    destruct (notSystemTag _); apply IH; intros; apply Hfg; now right.
  - destruct (pushContent (trim l) st); [now apply IH | reflexivity].
Qed.

Lemma V3_useKnowledgeScoper_ext (f g : jsstring -> jsstring) raw :
  (forall h, In h (V3Aux.upperCased (split_lines raw)) -> f h = g h) ->
  V3.useKnowledgeScoper f (Some raw) = V3.useKnowledgeScoper g (Some raw).
Proof.
  intros Hfg. unfold V3.useKnowledgeScoper. destruct raw; [reflexivity|].
  now rewrite (V3_loop_ext f g).
Qed.

(** Runs the v3 parser on a concrete Basic Latin input: the header texts
    are computed, [H] turns [toUpperCase] on each of them into the Basic
    Latin function, and the rest is evaluation. *)
Ltac run_latin H :=
  rewrite (V3_useKnowledgeScoper_ext _ latinUpperCase);
  [ vm_compute; reflexivity
  | let h := fresh "h" in
    let Hin := fresh "Hin" in
    intros h Hin; vm_compute in Hin;
    repeat (destruct Hin as [<- | Hin]; [apply H; reflexivity|]);
    contradiction ].

(** The global key is the first one created, and when no key is an array
    index the key list is the creation order, so it starts with the
    global key. *)
Lemma global_is_created_first (toUpperCase : jsstring -> jsstring) raw r :
  V3.useKnowledgeScoper toUpperCase raw = Some r ->
  exists later, map fst (scopes r) = GLOBAL_KEY :: later.
Proof.
  unfold V3.useKnowledgeScoper. destruct raw as [[|c raw]|];
    try (intros [= <-]; now exists []).
  destruct (V3.loop toUpperCase _ initialState) as [st|] eqn:E; [|discriminate].
  intros [= <-]. apply V3_loop_keys_extend in E as [new E].
  exists new. exact E.
Qed.

Lemma named_keys_in_creation_order (toUpperCase : jsstring -> jsstring) raw r :
  V3.useKnowledgeScoper toUpperCase raw = Some r ->
  forallb isNamedKey (map fst (scopes r)) = true ->
  availableScopes r = map fst (scopes r)
  /\ hd_error (availableScopes r) = Some GLOBAL_KEY.
Proof.
  intros H Hnamed.
  destruct (global_is_created_first toUpperCase raw r H) as [later E].
  apply V3_result_sound in H as ((Hav & _) & _).
  rewrite Hav, (Object_keys_named _ Hnamed). split; [reflexivity|].
  now rewrite E.
Qed.

(** ** Header detection *)

(** Takes a definition apart along the conditions it tests. *)
Ltac split_cases :=
  repeat match goal with
         | |- context [match ?x with _ => _ end] => destruct x eqn:?
         end.

Lemma bracketMatch_nonempty line h : bracketMatch line = Some h -> h <> [].
Proof.
  unfold bracketMatch. split_cases; try discriminate; intros [= <-]; discriminate.
Qed.

Lemma mdMatch_nonempty line h : mdMatch line = Some h -> h <> [].
Proof.
  unfold mdMatch. split_cases; try discriminate; intros [= <-]; discriminate.
Qed.

Lemma boldMatch_nonempty line h : boldMatch line = Some h -> h <> [].
Proof.
  unfold boldMatch. split_cases; try discriminate; intros [= <-]; discriminate.
Qed.

Lemma colonMatch_nonempty line h : colonMatch line = Some h -> h <> [].
Proof.
  unfold colonMatch. split_cases; try discriminate; intros [= <-]; discriminate.
Qed.

Lemma explicitHeader_nonempty line h : explicitHeader line = Some h -> h <> [].
Proof.
  unfold explicitHeader.
  destruct (bracketMatch line) eqn:B; [intros [= <-]; eapply bracketMatch_nonempty, B|].
  destruct (mdMatch line) eqn:M; [intros [= <-]; eapply mdMatch_nonempty, M|].
  destruct (boldMatch line) eqn:O; [intros [= <-]; eapply boldMatch_nonempty, O|].
  destruct (colonMatch line) eqn:C; [|discriminate].
  destruct (strlen line <? 50); [|discriminate].
  intros [= <-]; eapply colonMatch_nonempty, C.
Qed.

(** A header found by the explicit patterns is never falsy. *)
Lemma explicitHeader_truthy line :
  truthy (explicitHeader line) = false <-> explicitHeader line = None.
Proof.
  destruct (explicitHeader line) as [h|] eqn:E; simpl; [|tauto].
  apply explicitHeader_nonempty in E. destruct h; [contradiction|].
  split; discriminate.
Qed.

Lemma detectHeader_explicit line rest h :
  explicitHeader line = Some h -> V3.detectHeader line rest = Some h.
Proof.
  intros E. unfold V3.detectHeader.
  destruct (truthy (explicitHeader line)) eqn:T; simpl; [exact E|].
  apply explicitHeader_truthy in T. congruence.
Qed.

Lemma detectHeader_implicit line rest :
  explicitHeader line = None ->
  V3.detectHeader line rest
  = if V3.looksLikeHeader line rest then Some line else None.
Proof.
  intros E. unfold V3.detectHeader. rewrite E. reflexivity.
Qed.

(** A bracketed text, with or without the colon, is captured whole. *)
Lemma bracketMatch_bracketed text tail :
  text <> [] ->
  forallb (fun x => negb (x =? ch "]")) text = true ->
  tail = [] \/ tail = [ch ":"] ->
  bracketMatch (ch "[" :: text ++ ch "]" :: tail) = Some text.
Proof.
  intros Hne Hno Htail. unfold bracketMatch. rewrite N.eqb_refl.
  rewrite takeWhile_app_stop, dropWhile_app_stop;
    try assumption; try (now rewrite N.eqb_refl).
  destruct text as [|c text]; [contradiction|].
  destruct Htail as [-> | ->]; reflexivity.
Qed.

(** The colon pattern cannot start at a bracket. *)
Lemma colonMatch_bracket rest : colonMatch (ch "[" :: rest) = None.
Proof. reflexivity. Qed.

(** ** The look-ahead test in the words of the specification *)

Lemma isListItem_spec s : isListItem s = true <-> ListItemShape s.
Proof.
  unfold ListItemShape. split.
  - destruct s as [|c rest]; [discriminate|]. unfold isListItem.
    destruct (isDigit c) eqn:D.
    + destruct (dropWhile isDigit rest) as [|dot [|w tail]] eqn:E; try discriminate.
      intros H. apply andb_true_iff in H as [Hdot Hw]. apply N.eqb_eq in Hdot.
      left. exists (c :: takeWhile isDigit rest), w, tail. repeat split.
      * discriminate.
      * simpl. now rewrite D, takeWhile_all.
      * exact Hw.
      * subst dot. rewrite <- app_comm_cons, <- E, take_drop. reflexivity.
    + destruct ((c =? ch "-") || (c =? ch "*") || (c =? BULLET)) eqn:M;
        [|discriminate].
      destruct rest as [|w tail]; [discriminate|]. intros Hw.
      right. exists c, w, tail. repeat split; try assumption.
      rewrite !orb_true_iff, !N.eqb_eq in M. tauto.
  - intros [(ds & w & tail & Hne & Hds & Hw & ->) | (c & w & tail & Hc & Hw & ->)].
    + destruct ds as [|d ds]; [contradiction|]. simpl in *.
      apply andb_true_iff in Hds as [Hd Hds]. rewrite Hd.
      rewrite dropWhile_app_stop by (assumption || reflexivity).
      now rewrite N.eqb_refl.
    + destruct Hc as [-> | [-> | ->]]; simpl; exact Hw.
Qed.

Lemma ListItemShape_nonempty s : ListItemShape s -> s <> [].
Proof.
  intros [(ds & w & tail & Hne & _ & _ & ->) | (c & w & tail & _ & _ & ->)].
  - destruct ds; [contradiction | discriminate].
  - discriminate.
Qed.

Lemma nextLine_spec rest :
  isListItem (V3.nextLine rest) = true <-> NextIsListItem rest.
Proof.
  unfold NextIsListItem. split.
  - induction rest as [|l rest IH]; simpl; [discriminate|].
    destruct (isEmpty (trim l)) eqn:E.
    + intros H. destruct (IH H) as (blanks & l' & after & -> & Hb & Hl).
      exists (l :: blanks), l', after. repeat split; try assumption.
      constructor; [now apply isEmpty_true | assumption].
    + intros H. exists [], l, rest. repeat split; [constructor|].
      now apply isListItem_spec.
  - intros (blanks & l & after & -> & Hb & Hl).
    induction Hb as [|b blanks Hb _ IH]; simpl.
    + destruct (isEmpty (trim l)) eqn:E; [|now apply isListItem_spec].
      apply isEmpty_true in E. apply ListItemShape_nonempty in Hl. contradiction.
    + rewrite Hb. simpl. exact IH.
Qed.

Lemma endsSentence_spec s : endsSentence s = true <-> EndsInPunctuation s.
Proof.
  unfold endsSentence, EndsInPunctuation. split.
  - destruct (rev s) as [|c front] eqn:E; [discriminate|]. intros H.
    exists (rev front), c. split.
    + rewrite <- (rev_involutive s), E. reflexivity.
    + rewrite !orb_true_iff, !N.eqb_eq in H. tauto.
  - intros (front & c & -> & Hc). rewrite rev_app_distr. simpl.
    destruct Hc as [-> | [-> | ->]]; reflexivity.
Qed.

Lemma looksLikeHeader_spec line rest :
  V3.looksLikeHeader line rest = true
  <-> NextIsListItem rest /\ ~ ListItemShape line
      /\ (strlen line < 60)%N /\ ~ EndsInPunctuation line.
Proof.
  unfold V3.looksLikeHeader.
  rewrite !andb_true_iff, !negb_true_iff, N.ltb_lt.
  rewrite nextLine_spec, <- isListItem_spec, <- endsSentence_spec.
  rewrite !not_true_iff_false. tauto.
Qed.

Lemma explicitHeader_spec line h :
  explicitHeader line = Some h
  <-> bracketMatch line = Some h
      \/ (bracketMatch line = None /\ mdMatch line = Some h)
      \/ (bracketMatch line = None /\ mdMatch line = None
          /\ boldMatch line = Some h)
      \/ (bracketMatch line = None /\ mdMatch line = None
          /\ boldMatch line = None
          /\ colonMatch line = Some h /\ (strlen line < 50)%N).
Proof.
  unfold explicitHeader.
  destruct (bracketMatch line) as [b|]; [intuition congruence|].
  destruct (mdMatch line) as [m|]; [intuition congruence|].
  destruct (boldMatch line) as [o|]; [intuition congruence|].
  destruct (colonMatch line) as [c|]; [|intuition congruence].
  destruct (strlen line <? 50) eqn:L.
  - apply N.ltb_lt in L. intuition congruence.
  - apply N.ltb_ge in L. split; [discriminate|].
    intros [H | [H | [H | H]]]; try (intuition congruence).
    destruct H as (_ & _ & _ & _ & H). lia.
Qed.

(** ** Buckets only grow *)

Section Growth.

Variable toUpperCase : jsstring -> jsstring.

Lemma applyScoping_grows d line st st' k xs :
  applyScoping toUpperCase d line st = Some st' ->
  getOwn (st_scopes st) k = Some xs ->
  exists more, getOwn (st_scopes st') k = Some (xs ++ more).
Proof.
  intros H Hk. apply applyScoping_cases in H
    as [(h & _ & _ & _ & ->) | [(h & _ & _ & _ & ->) | (_ & H)]].
  - exists []. now rewrite app_nil_r.
  - destruct (openScope_keys (normalizeScope toUpperCase h) st)
      as (_ & [(_ & ->) | (Hnew & -> & _)]).
    + exists []. now rewrite app_nil_r.
    + exists []. rewrite app_nil_r, getOwn_setOwn_other; [exact Hk|].
      intros ->. apply Hnew. eapply getOwn_Some_In, Hk.
  - apply pushContent_Some in H as (ys & Hc & ->). simpl.
    destruct (list_eq_dec N.eq_dec k (currentScope st)) as [-> | Hne].
    + exists [line]. rewrite getOwn_setOwn_same. congruence.
    + exists []. now rewrite app_nil_r, getOwn_setOwn_other.
Qed.

Lemma V3_loop_grows lines st st' k xs :
  V3.loop toUpperCase lines st = Some st' ->
  getOwn (st_scopes st) k = Some xs ->
  exists more, getOwn (st_scopes st') k = Some (xs ++ more).
Proof.
  intros H Hk. revert H.
  apply (V3_loop_preserves toUpperCase
           (fun s => exists more, getOwn (st_scopes s) k = Some (xs ++ more))).
  - intros d line s s' [more E] H.
    destruct (applyScoping_grows d line s s' k _ H E) as [more' E'].
    exists (more ++ more'). now rewrite app_assoc.
  - exists []. now rewrite app_nil_r.
Qed.

End Growth.

Lemma latinUpperCase_same_letters t1 t2 :
  Forall2 (fun a b => upperUnit a = upperUnit b) t1 t2 ->
  latinUpperCase t1 = latinUpperCase t2.
Proof.
  induction 1 as [|a b t1 t2 Hab _ IH]; simpl; [reflexivity|].
  now rewrite Hab, IH.
Qed.

(** ** The two versions *)

Lemma V2_V3_same_pass (toUpperCase : jsstring -> jsstring) lines st :
  V3Aux.noImplicitHeader lines = true ->
  V2.forEach toUpperCase lines st = V3.loop toUpperCase lines st.
Proof.
  revert st. induction lines as [|l rest IH]; simpl; intros st H; [reflexivity|].
  apply andb_true_iff in H as [Hl Hrest].
  unfold V2.visit, V3.iteration.
  destruct (isEmpty (trim l)); [now apply IH|]. simpl in Hl.
  assert (D : V3.detectHeader (trim l) rest = explicitHeader (trim l)).
  { unfold V3.detectHeader.
    destruct (truthy (explicitHeader (trim l))); simpl in *; [reflexivity|].
    apply negb_true_iff in Hl. now rewrite Hl. }
  rewrite D.
  destruct (applyScoping toUpperCase (explicitHeader (trim l)) (trim l) st);
    [now apply IH | reflexivity].
Qed.

(** ** Lines that spell a system tag *)

Lemma upperUnit_label c : isLabelUnit (upperUnit c) = true -> isLabelUnit c = true.
Proof.
  unfold upperUnit. destruct (isLowerLatin c) eqn:L; [|auto].
  intros _. unfold isLabelUnit. unfold isLowerLatin in L.
  now rewrite L, orb_true_r.
Qed.

Lemma latinUpperCase_label t :
  forallb isLabelUnit (latinUpperCase t) = true -> forallb isLabelUnit t = true.
Proof.
  induction t as [|c t IH]; simpl; [reflexivity|].
  intros H. apply andb_true_iff in H as [Hc Ht].
  now rewrite (upperUnit_label c Hc), IH.
Qed.

Lemma latinUpperCase_latin t :
  isBasicLatin (latinUpperCase t) = true -> isBasicLatin t = true.
Proof.
  unfold isBasicLatin. induction t as [|c t IH]; simpl; [reflexivity|].
  intros H. apply andb_true_iff in H as [Hc Ht]. rewrite (IH Ht), andb_true_r.
  unfold upperUnit, isLowerLatin in Hc.
  destruct ((97 <=? c) && (c <=? 122)) eqn:L; [|exact Hc].
  apply andb_true_iff in L as [_ L]. apply N.leb_le in L. apply N.ltb_lt. lia.
Qed.

(** A line of letters, digits, spaces, [_], [/] and [-] alone matches no
    explicit pattern. *)
Lemma labelOnly_no_explicit line :
  forallb isLabelUnit line = true -> explicitHeader line = None.
Proof.
  intros H. destruct line as [|c line]; [reflexivity|].
  pose proof H as Hall. simpl in H. apply andb_true_iff in H as [Hc _].
  assert (B : bracketMatch (c :: line) = None).
  { unfold bracketMatch. destruct (c =? ch "[") eqn:E; [|reflexivity].
    apply N.eqb_eq in E. subst c. vm_compute in Hc. discriminate Hc. }
  assert (M : mdMatch (c :: line) = None).
  { unfold mdMatch. cbn [takeWhile]. destruct (c =? ch "#") eqn:E; [|reflexivity].
    apply N.eqb_eq in E. subst c. vm_compute in Hc. discriminate Hc. }
  assert (O : boldMatch (c :: line) = None).
  { unfold boldMatch. destruct line as [|d line]; [reflexivity|].
    destruct (c =? ch "*") eqn:E; [|reflexivity].
    apply N.eqb_eq in E. subst c. vm_compute in Hc. discriminate Hc. }
  assert (C : colonMatch (c :: line) = None).
  { unfold colonMatch. rewrite (dropWhile_all _ _ Hall).
    now destruct (takeWhile isLabelUnit (c :: line)). }
  unfold explicitHeader. now rewrite B, M, O, C.
Qed.

(** A line that spells a system tag, in any letter case, is either taken
    as an implicit header and dropped, or kept as content; either way the
    current scope and the set of scopes stay as they are. *)
Lemma tag_line_keeps_scope (toUpperCase : jsstring -> jsstring) l rest st st' :
  (forall s, isBasicLatin s = true -> toUpperCase s = latinUpperCase s) ->
  latinUpperCase (trim l) = START_KNOWLEDGE
  \/ latinUpperCase (trim l) = END_KNOWLEDGE ->
  V3.iteration toUpperCase l rest st = Some st' ->
  currentScope st' = currentScope st
  /\ map fst (st_scopes st') = map fst (st_scopes st).
Proof.
  intros Hlatin T H.
  assert (Lab : forallb isLabelUnit (trim l) = true)
    by (apply latinUpperCase_label; destruct T as [-> | ->]; reflexivity).
  assert (Lat : isBasicLatin (trim l) = true)
    by (apply latinUpperCase_latin; destruct T as [-> | ->]; reflexivity).
  unfold V3.iteration in H.
  destruct (isEmpty (trim l)) eqn:Em; [injection H as <-; now split|].
  rewrite (detectHeader_implicit _ _ (labelOnly_no_explicit _ Lab)) in H.
  destruct (V3.looksLikeHeader (trim l) rest).
  - rewrite applyScoping_tag in H.
    + injection H as <-. now split.
    + intros E. rewrite E in Em. discriminate Em.
    + unfold normalizeScope. rewrite trim_idempotent, (Hlatin _ Lat). exact T.
  - simpl in H. apply pushContent_keys in H. tauto.
Qed.

Lemma tag_line_keeps_scope_v2 (toUpperCase : jsstring -> jsstring) l st st' :
  latinUpperCase (trim l) = START_KNOWLEDGE
  \/ latinUpperCase (trim l) = END_KNOWLEDGE ->
  V2.visit toUpperCase l st = Some st' ->
  currentScope st' = currentScope st
  /\ map fst (st_scopes st') = map fst (st_scopes st).
Proof.
  intros T H.
  assert (Lab : forallb isLabelUnit (trim l) = true)
    by (apply latinUpperCase_label; destruct T as [-> | ->]; reflexivity).
  unfold V2.visit in H.
  destruct (isEmpty (trim l)); [injection H as <-; now split|].
  rewrite (labelOnly_no_explicit _ Lab) in H. simpl in H.
  apply pushContent_keys in H. tauto.
Qed.

(** * The claims *)

(** C1, the claim at scenario D.  None of the three lines matches a
    header pattern and none is followed by a list item, so all three are
    content: the result is not [GLOBAL: ["Rule A"]]. *)
Lemma scenarioD_keeps_the_sentinel_lines :
  V3.useKnowledgeScoper latinUpperCase (Some scenarioD)
  = Some {| scopes := [(GLOBAL_KEY, [START_KNOWLEDGE; js "Rule A"; END_KNOWLEDGE])];
            availableScopes := [GLOBAL_KEY] |}
  /\ V3.useKnowledgeScoper latinUpperCase (Some scenarioD)
     <> Some {| scopes := [(GLOBAL_KEY, [js "Rule A"])];
                availableScopes := [GLOBAL_KEY] |}.
Proof.
  split; [vm_compute; reflexivity|].
  vm_compute. discriminate.
Qed.

(** C1, amended.  The texts [START KNOWLEDGE] and [END KNOWLEDGE] are
    never a key of the table nor a member of [availableScopes], in either
    version.  A line detected as a header whose normalized text is one of
    them leaves the table and the current scope as they are and is not
    recorded.  A line that spells one of them, in any letter case, never
    changes the current scope nor adds a scope; but when no rule detects
    it as a header it is content like any other line, and scenario D
    keeps its three lines under the global key. *)
Theorem system_tags_are_filtered_as_headers :
  forall toUpperCase : jsstring -> jsstring,
    (forall s, noLowerLatin (toUpperCase s) = true) ->
    (forall s, isBasicLatin s = true -> toUpperCase s = latinUpperCase s) ->
    forall rawRules : option jsstring,
      (exists r, V3.useKnowledgeScoper toUpperCase rawRules = Some r
                 /\ getOwn (scopes r) START_KNOWLEDGE = None
                 /\ getOwn (scopes r) END_KNOWLEDGE = None
                 /\ ~ In START_KNOWLEDGE (availableScopes r)
                 /\ ~ In END_KNOWLEDGE (availableScopes r))
      /\ (exists r, V2.useKnowledgeScoper toUpperCase rawRules = Some r
                    /\ getOwn (scopes r) START_KNOWLEDGE = None
                    /\ getOwn (scopes r) END_KNOWLEDGE = None
                    /\ ~ In START_KNOWLEDGE (availableScopes r)
                    /\ ~ In END_KNOWLEDGE (availableScopes r))
      /\ (forall h line st,
             h <> [] ->
             normalizeScope toUpperCase h = START_KNOWLEDGE
             \/ normalizeScope toUpperCase h = END_KNOWLEDGE ->
             applyScoping toUpperCase (Some h) line st = Some st)
      /\ (forall l rest st st',
             latinUpperCase (trim l) = START_KNOWLEDGE
             \/ latinUpperCase (trim l) = END_KNOWLEDGE ->
             V3.iteration toUpperCase l rest st = Some st' ->
             currentScope st' = currentScope st
             /\ map fst (st_scopes st') = map fst (st_scopes st))
      /\ (forall l st st',
             latinUpperCase (trim l) = START_KNOWLEDGE
             \/ latinUpperCase (trim l) = END_KNOWLEDGE ->
             V2.visit toUpperCase l st = Some st' ->
             currentScope st' = currentScope st
             /\ map fst (st_scopes st') = map fst (st_scopes st))
      /\ V3.useKnowledgeScoper toUpperCase (Some scenarioD)
         = Some {| scopes := [(GLOBAL_KEY, [START_KNOWLEDGE; js "Rule A"; END_KNOWLEDGE])];
                   availableScopes := [GLOBAL_KEY] |}.
Proof.
  intros toUpperCase Hup Hlatin rawRules.
  assert (Hkeys : forall r, wellFormed r /\ tableSound (scopes r) ->
            getOwn (scopes r) START_KNOWLEDGE = None
            /\ getOwn (scopes r) END_KNOWLEDGE = None
            /\ ~ In START_KNOWLEDGE (availableScopes r)
            /\ ~ In END_KNOWLEDGE (availableScopes r)).
  { intros r ((Hav & _) & (_ & _ & Hs & He)). rewrite Hav, !Object_keys_In.
    repeat split; try assumption; now apply getOwn_None. }
  split; [|split; [|split; [|split; [|split]]]].
  - destruct (V3_returns toUpperCase Hup rawRules) as [r Hr].
    exists r. split; [exact Hr|]. eapply Hkeys, V3_result_sound, Hr.
  - destruct (V2_returns toUpperCase Hup rawRules) as [r Hr].
    exists r. split; [exact Hr|]. eapply Hkeys, V2_result_sound, Hr.
  - intros h line st. apply applyScoping_tag.
  - intros l rest st st'. now apply tag_line_keeps_scope.
  - intros l st st'. now apply tag_line_keeps_scope_v2.
  - run_latin Hlatin.
Qed.

Lemma system_tags_are_filtered_as_headers_witness :
  (forall s, noLowerLatin (latinUpperCase s) = true)
  /\ (forall s, isBasicLatin s = true -> latinUpperCase s = latinUpperCase s)
  /\ (exists r, V3.useKnowledgeScoper latinUpperCase (Some scenarioD) = Some r
                /\ getOwn (scopes r) START_KNOWLEDGE = None
                /\ getOwn (scopes r) END_KNOWLEDGE = None
                /\ ~ In START_KNOWLEDGE (availableScopes r)
                /\ ~ In END_KNOWLEDGE (availableScopes r)).
Proof.
  split; [exact latinUpperCase_no_lower|]. split; [reflexivity|].
  exact (proj1 (system_tags_are_filtered_as_headers
                  latinUpperCase latinUpperCase_no_lower (fun s _ => eq_refl)
                  (Some scenarioD))).
Defined.

(** C2, at the failing input ["[1]"].  The header text [1] is an array
    index, so [Object.keys] lists it before the global key although the
    global key was created first. *)
Theorem index_header_is_listed_before_global :
  V3.useKnowledgeScoper latinUpperCase (Some (js "[1]"))
  = Some {| scopes := [(GLOBAL_KEY, []); (js "1", [])];
            availableScopes := [js "1"; GLOBAL_KEY] |}
  /\ V2.useKnowledgeScoper latinUpperCase (Some (js "[1]"))
     = Some {| scopes := [(GLOBAL_KEY, []); (js "1", [])];
               availableScopes := [js "1"; GLOBAL_KEY] |}.
Proof.
  split; vm_compute; reflexivity.
Qed.

(** C3.  The parser is total.  Provided [toUpperCase] never yields a
    lower-case Latin letter (it never does), every input, absent or not,
    gives a well-formed result and no [push] fails: the bucket of the
    current scope exists initially, and every turn of the loop that
    starts with it in place completes and leaves it in place. *)
Theorem parser_is_total :
  forall toUpperCase : jsstring -> jsstring,
    (forall s, noLowerLatin (toUpperCase s) = true) ->
    forall rawRules : option jsstring,
      (exists r, V3.useKnowledgeScoper toUpperCase rawRules = Some r /\ wellFormed r)
      /\ bucketExists initialState
      /\ (forall l rest st,
             bucketExists st ->
             exists st', V3.iteration toUpperCase l rest st = Some st'
                         /\ bucketExists st').
Proof.
  intros toUpperCase Hup rawRules. split; [|split].
  - destruct (V3_returns toUpperCase Hup rawRules) as [r Hr].
    exists r. split; [exact Hr|]. eapply V3_result_sound, Hr.
  - apply initialState_bucket.
  - intros l rest st. now apply V3_iteration_total.
Qed.

Lemma parser_is_total_witness :
  (forall s, noLowerLatin (latinUpperCase s) = true)
  /\ (exists r, V3.useKnowledgeScoper latinUpperCase (Some scenarioA) = Some r
                /\ wellFormed r).
Proof.
  split; [exact latinUpperCase_no_lower|].
  exact (proj1 (parser_is_total latinUpperCase latinUpperCase_no_lower (Some scenarioA))).
Defined.

(** C4.  Absent input and the empty string give the same, minimal
    result: the table maps the global key to an empty list and
    [availableScopes] is the global key alone.  Both versions agree. *)
Theorem absent_and_empty_input_give_the_minimal_result :
  forall toUpperCase : jsstring -> jsstring,
    V3.useKnowledgeScoper toUpperCase None
    = V3.useKnowledgeScoper toUpperCase (Some [])
    /\ V3.useKnowledgeScoper toUpperCase (Some [])
       = Some {| scopes := [(GLOBAL_KEY, [])]; availableScopes := [GLOBAL_KEY] |}
    /\ V2.useKnowledgeScoper toUpperCase None
       = V2.useKnowledgeScoper toUpperCase (Some [])
    /\ V2.useKnowledgeScoper toUpperCase (Some [])
       = Some {| scopes := [(GLOBAL_KEY, [])]; availableScopes := [GLOBAL_KEY] |}.
Proof.
  intros toUpperCase. repeat split.
Qed.

(** C5.  Detection tries the bracket, markdown, bold and colon patterns
    in this order, then the look-ahead test, and the first that applies
    gives the header text; a line [[text]:] (a non-empty [text] without a
    closing bracket in it) is taken by the bracket pattern, which
    captures [text], and is no match for the colon pattern. *)
Theorem header_rules_apply_in_priority_order :
  forall text : jsstring,
    text <> [] ->
    forallb (fun x => negb (x =? ch "]")) text = true ->
    (forall line rest h,
        V3.detectHeader line rest = Some h
        <-> bracketMatch line = Some h
            \/ (bracketMatch line = None /\ mdMatch line = Some h)
            \/ (bracketMatch line = None /\ mdMatch line = None
                /\ boldMatch line = Some h)
            \/ (bracketMatch line = None /\ mdMatch line = None
                /\ boldMatch line = None
                /\ colonMatch line = Some h /\ (strlen line < 50)%N)
            \/ (explicitHeader line = None
                /\ V3.looksLikeHeader line rest = true /\ h = line))
    /\ (forall rest,
           bracketMatch (ch "[" :: text ++ [ch "]"; ch ":"]) = Some text
           /\ colonMatch (ch "[" :: text ++ [ch "]"; ch ":"]) = None
           /\ explicitHeader (ch "[" :: text ++ [ch "]"; ch ":"]) = Some text
           /\ V3.detectHeader (ch "[" :: text ++ [ch "]"; ch ":"]) rest = Some text).
Proof.
  intros text Hne Hno. split.
  - intros line rest h. pose proof (explicitHeader_spec line h) as S.
    destruct (explicitHeader line) as [e|] eqn:E.
    + rewrite (detectHeader_explicit line rest e E). split.
      * intros H. apply S in H. tauto.
      * intros [H | [H | [H | [H | (H & _)]]]];
          try discriminate H; apply S; tauto.
    + rewrite (detectHeader_implicit line rest E).
      destruct (V3.looksLikeHeader line rest).
      * split.
        -- intros [= <-]. do 4 right. now repeat split.
        -- intros [H | [H | [H | [H | (_ & _ & ->)]]]]; try reflexivity;
             exfalso; assert (D : @None jsstring = Some h) by (apply S; tauto);
             discriminate D.
      * split; [discriminate|].
        intros [H | [H | [H | [H | (_ & H & _)]]]]; try discriminate H;
          apply S; tauto.
  - intros rest.
    assert (B : bracketMatch (ch "[" :: text ++ [ch "]"; ch ":"]) = Some text)
      by (apply bracketMatch_bracketed; auto).
    assert (X : explicitHeader (ch "[" :: text ++ [ch "]"; ch ":"]) = Some text)
      by (unfold explicitHeader; now rewrite B).
    split; [exact B|]. split; [apply colonMatch_bracket|]. split; [exact X|].
    now apply detectHeader_explicit.
Qed.

Lemma header_rules_apply_in_priority_order_witness :
  js "Foo" <> []
  /\ forallb (fun x => negb (x =? ch "]")) (js "Foo") = true
  /\ bracketMatch (js "[Foo]:") = Some (js "Foo")
  /\ colonMatch (js "[Foo]:") = None
  /\ V3.detectHeader (js "[Foo]:") [] = Some (js "Foo").
Proof.
  assert (Hne : js "Foo" <> []) by discriminate.
  split; [exact Hne|]. split; [reflexivity|].
  destruct (proj2 (header_rules_apply_in_priority_order (js "Foo") Hne eq_refl) [])
    as (B & C & _ & D).
  exact (conj B (conj C D)).
Defined.

(** C6.  On a line that no explicit pattern matches, the look-ahead rule
    makes the line itself the header exactly when the next non-blank line
    is a list item, the line is not one, it is shorter than 60 code units
    and it does not end in [.], [!] or [?]; otherwise the line is no
    header.  Scenario B: [Bonus 1] opens the scope [BONUS 1], which
    receives the numbered line, and the global bucket stays empty. *)
Theorem look_ahead_fires_on_its_four_conditions :
  forall toUpperCase : jsstring -> jsstring,
    (forall s, isBasicLatin s = true -> toUpperCase s = latinUpperCase s) ->
    forall line rest,
      explicitHeader line = None ->
      (V3.detectHeader line rest = Some line
       <-> NextIsListItem rest /\ ~ ListItemShape line
           /\ (strlen line < 60)%N /\ ~ EndsInPunctuation line)
      /\ (V3.detectHeader line rest = Some line \/ V3.detectHeader line rest = None)
      /\ V3.useKnowledgeScoper toUpperCase (Some scenarioB)
         = Some {| scopes := [(GLOBAL_KEY, []);
                              (js "BONUS 1", [js "1. Extra credit task"])];
                   availableScopes := [GLOBAL_KEY; js "BONUS 1"] |}.
Proof.
  intros toUpperCase Hlatin line rest E. split; [|split].
  - rewrite (detectHeader_implicit line rest E), <- looksLikeHeader_spec.
    destruct (V3.looksLikeHeader line rest); split; congruence.
  - rewrite (detectHeader_implicit line rest E).
    destruct (V3.looksLikeHeader line rest); [now left | now right].
  - run_latin Hlatin.
Qed.

Lemma look_ahead_fires_on_its_four_conditions_witness :
  (forall s, isBasicLatin s = true -> latinUpperCase s = latinUpperCase s)
  /\ explicitHeader (js "Bonus 1") = None
  /\ (V3.detectHeader (js "Bonus 1") [js "1. Extra credit task"] = Some (js "Bonus 1")
      <-> NextIsListItem [js "1. Extra credit task"] /\ ~ ListItemShape (js "Bonus 1")
          /\ (strlen (js "Bonus 1") < 60)%N /\ ~ EndsInPunctuation (js "Bonus 1")).
Proof.
  split; [reflexivity|]. split; [reflexivity|].
  exact (proj1 (look_ahead_fires_on_its_four_conditions
                  latinUpperCase (fun s _ => eq_refl)
                  (js "Bonus 1") [js "1. Extra credit task"] eq_refl)).
Defined.

(** C7.  A line that ends in [.], [!] or [?] fails the look-ahead test
    whatever follows it, so unless an explicit pattern matches it, it is
    content.  Scenario C: both lines stay under the global key. *)
Theorem sentence_is_never_an_implicit_header :
  forall (toUpperCase : jsstring -> jsstring) line rest,
    EndsInPunctuation line ->
    V3.looksLikeHeader line rest = false
    /\ (explicitHeader line = None -> V3.detectHeader line rest = None)
    /\ V3.useKnowledgeScoper toUpperCase (Some scenarioC)
       = Some {| scopes :=
                   [(GLOBAL_KEY,
                     [js "This is a long sentence that ends with punctuation.";
                      js "- item"])];
                 availableScopes := [GLOBAL_KEY] |}.
Proof.
  intros toUpperCase line rest Hp.
  assert (L : V3.looksLikeHeader line rest = false).
  { apply not_true_iff_false. intros H.
    apply looksLikeHeader_spec in H as (_ & _ & _ & H). contradiction. }
  split; [exact L|]. split.
  - intros E. now rewrite (detectHeader_implicit line rest E), L.
  - rewrite (V3_useKnowledgeScoper_ext _ latinUpperCase).
    + vm_compute; reflexivity.
    + intros h Hin. vm_compute in Hin. contradiction.
Qed.

Lemma sentence_is_never_an_implicit_header_witness :
  EndsInPunctuation (js "This is a long sentence that ends with punctuation.")
  /\ V3.looksLikeHeader (js "This is a long sentence that ends with punctuation.")
       [js "- item"] = false.
Proof.
  assert (Hp : EndsInPunctuation
                 (js "This is a long sentence that ends with punctuation.")).
  { exists (js "This is a long sentence that ends with punctuation"), (ch ".").
    split; [reflexivity | now left]. }
  split; [exact Hp|].
  exact (proj1 (sentence_is_never_an_implicit_header
                  latinUpperCase _ [js "- item"] Hp)).
Defined.

(** C8.  Scenario A: the line before any header goes to the global
    bucket, [[Rules]] opens the scope [RULES], and the two list items are
    appended to it in order.  White space around the lines changes
    nothing; what is inside a content line is kept as it is. *)
Theorem scenarioA_result :
  forall toUpperCase : jsstring -> jsstring,
    (forall s, isBasicLatin s = true -> toUpperCase s = latinUpperCase s) ->
    V3.useKnowledgeScoper toUpperCase (Some scenarioA)
    = Some {| scopes := [(GLOBAL_KEY, [js "Intro line"]);
                         (js "RULES", [js "- do X"; js "- do Y"])];
              availableScopes := [GLOBAL_KEY; js "RULES"] |}
    /\ V3.useKnowledgeScoper toUpperCase
         (Some (js "  Intro line " ++ nl ++ js " [Rules]" ++ nl
                ++ js "   - do X  " ++ nl ++ js "- do Y "))
       = V3.useKnowledgeScoper toUpperCase (Some scenarioA)
    /\ V3.useKnowledgeScoper toUpperCase
         (Some (js "[Rules]" ++ nl ++ js "-  do   X"))
       = Some {| scopes := [(GLOBAL_KEY, []); (js "RULES", [js "-  do   X"])];
                 availableScopes := [GLOBAL_KEY; js "RULES"] |}.
Proof.
  intros toUpperCase Hlatin.
  assert (A : V3.useKnowledgeScoper toUpperCase (Some scenarioA)
              = Some {| scopes := [(GLOBAL_KEY, [js "Intro line"]);
                                   (js "RULES", [js "- do X"; js "- do Y"])];
                        availableScopes := [GLOBAL_KEY; js "RULES"] |})
    by run_latin Hlatin.
  split; [exact A|]. split.
  - rewrite A. run_latin Hlatin.
  - run_latin Hlatin.
Qed.

Lemma scenarioA_result_witness :
  (forall s, isBasicLatin s = true -> latinUpperCase s = latinUpperCase s)
  /\ V3.useKnowledgeScoper latinUpperCase (Some scenarioA)
     = Some {| scopes := [(GLOBAL_KEY, [js "Intro line"]);
                          (js "RULES", [js "- do X"; js "- do Y"])];
               availableScopes := [GLOBAL_KEY; js "RULES"] |}.
Proof.
  split; [reflexivity|].
  exact (proj1 (scenarioA_result latinUpperCase (fun s _ => eq_refl))).
Defined.

(** What holds of repeated headers.  Header texts that differ only by
    surrounding white space and by letter case have the same key.  The
    first occurrence leaves an entry under that key; the entry stays and
    only grows while further lines are read; a later occurrence selects
    it without touching the table, so the key list is as it was, and
    content that follows is appended to that same entry.  No scope is
    listed twice in the result.  Where the entry stands in
    [availableScopes] is another matter: see the theorem after this
    one. *)
Theorem same_header_text_same_scope_entry :
  forall toUpperCase : jsstring -> jsstring,
    (forall s, noLowerLatin (toUpperCase s) = true) ->
    (forall s, isBasicLatin s = true -> toUpperCase s = latinUpperCase s) ->
    (forall w1 t1 w1' w2 t2 w2',
        Blank w1 -> Blank w1' -> Blank w2 -> Blank w2' ->
        NoOuterSpace t1 -> NoOuterSpace t2 ->
        toUpperCase t1 = toUpperCase t2 ->
        normalizeScope toUpperCase (w1 ++ t1 ++ w1')
        = normalizeScope toUpperCase (w2 ++ t2 ++ w2'))
    /\ (forall t1 t2,
           isBasicLatin t1 = true -> isBasicLatin t2 = true ->
           Forall2 (fun a b => upperUnit a = upperUnit b) t1 t2 ->
           toUpperCase t1 = toUpperCase t2)
    /\ (forall h line st,
           h <> [] -> notSystemTag (normalizeScope toUpperCase h) = true ->
           exists st1 xs,
             applyScoping toUpperCase (Some h) line st = Some st1
             /\ currentScope st1 = normalizeScope toUpperCase h
             /\ getOwn (st_scopes st1) (normalizeScope toUpperCase h) = Some xs)
    /\ (forall lines st st' k xs,
           V3.loop toUpperCase lines st = Some st' ->
           getOwn (st_scopes st) k = Some xs ->
           (exists more, getOwn (st_scopes st') k = Some (xs ++ more))
           /\ (exists new, map fst (st_scopes st') = map fst (st_scopes st) ++ new))
    /\ (forall h line c st xs,
           h <> [] -> notSystemTag (normalizeScope toUpperCase h) = true ->
           getOwn (st_scopes st) (normalizeScope toUpperCase h) = Some xs ->
           applyScoping toUpperCase (Some h) line st
           = Some {| st_scopes := st_scopes st;
                     currentScope := normalizeScope toUpperCase h |}
           /\ pushContent c {| st_scopes := st_scopes st;
                               currentScope := normalizeScope toUpperCase h |}
              = Some {| st_scopes := setOwn (st_scopes st)
                                       (normalizeScope toUpperCase h) (xs ++ [c]);
                        currentScope := normalizeScope toUpperCase h |}
           /\ Object_keys (setOwn (st_scopes st)
                             (normalizeScope toUpperCase h) (xs ++ [c]))
              = Object_keys (st_scopes st))
    /\ (forall rawRules r,
           V3.useKnowledgeScoper toUpperCase rawRules = Some r ->
           NoDup (availableScopes r))
    /\ V3.useKnowledgeScoper toUpperCase (Some scenarioRepeated)
       = Some {| scopes := [(GLOBAL_KEY, []);
                            (js "RULES", [js "- a"; js "- c"]);
                            (js "OTHER", [js "- b"])];
                 availableScopes := [GLOBAL_KEY; js "RULES"; js "OTHER"] |}.
Proof.
  intros toUpperCase Hup Hlatin.
  split; [|split; [|split; [|split; [|split; [|split]]]]].
  - intros w1 t1 w1' w2 t2 w2' B1 B1' B2 B2' N1 N2 E. unfold normalizeScope.
    now rewrite !trim_surrounded.
  - intros t1 t2 L1 L2 F. rewrite (Hlatin t1 L1), (Hlatin t2 L2).
    now apply latinUpperCase_same_letters.
  - intros h line st Hh T.
    assert (A : applyScoping toUpperCase (Some h) line st
                = Some (openScope (normalizeScope toUpperCase h) st)).
    { unfold applyScoping. destruct h; [contradiction|]. simpl. now rewrite T. }
    destruct (openScope_keys (normalizeScope toUpperCase h) st)
      as (Hc & [([Hin | Hproto] & Ho) | (_ & Ho & _)]).
    + destruct (In_getOwn _ _ Hin) as [xs Hxs].
      exists (openScope (normalizeScope toUpperCase h) st), xs.
      now rewrite Ho.
    + apply prototypeNames_lower in Hproto. unfold normalizeScope in Hproto.
      rewrite Hup in Hproto. discriminate.
    + exists (openScope (normalizeScope toUpperCase h) st), [].
      rewrite Ho. repeat split; try assumption. apply getOwn_setOwn_same.
  - intros lines st st' k xs H Hk. split.
    + eapply V3_loop_grows; eassumption.
    + eapply V3_loop_keys_extend; eassumption.
  - intros h line c st xs Hh T Hk. split; [|split].
    + eapply applyScoping_known; eassumption.
    + unfold pushContent, getProp. simpl. now rewrite Hk.
    + apply Object_keys_same_keys. now rewrite keys_setOwn, Hk.
  - intros rawRules r H. apply V3_result_sound in H as ((_ & H & _) & _). exact H.
  - run_latin Hlatin.
Qed.

Lemma same_header_text_same_scope_entry_witness :
  (forall s, noLowerLatin (latinUpperCase s) = true)
  /\ (forall s, isBasicLatin s = true -> latinUpperCase s = latinUpperCase s)
  /\ normalizeScope latinUpperCase (js "Rules") = js "RULES"
  /\ normalizeScope latinUpperCase (js "Rules")
     = normalizeScope latinUpperCase (js " rUles ").
Proof.
  split; [exact latinUpperCase_no_lower|]. split; [reflexivity|].
  split; [reflexivity|].
  refine (proj1 (same_header_text_same_scope_entry latinUpperCase
                   latinUpperCase_no_lower (fun s _ => eq_refl))
            [] (js "Rules") [] (js " ") (js "rUles") (js " ") _ _ _ _ _ _ _);
    try reflexivity.
  - split; intros c t' E.
    + now injection E as <- _.
    + destruct (app_inj_tail (js "Rule") t' (ch "s") c E) as [_ <-]. reflexivity.
  - split; intros c t' E.
    + now injection E as <- _.
    + destruct (app_inj_tail (js "rUle") t' (ch "s") c E) as [_ <-]. reflexivity.
Defined.

(** C9, at the failing input
    ["[Rules]\n- a\n[1]\n- b\n[ rUles ]\n- c"].  The two spellings of
    the header do collapse into the one entry [RULES], which receives
    both [- a] and [- c]; but the scope [1], which appears after the
    first [[Rules]], is an array index, so [Object.keys] lists it first
    and [RULES] does not stand where its first occurrence would put it.
    Likewise ["[5]\n[3]\n[ 5 ]"] lists [3] before [5]. *)
Theorem repeated_header_entry_stands_after_a_later_index_scope :
  V3.useKnowledgeScoper latinUpperCase
    (Some (js "[Rules]" ++ nl ++ js "- a" ++ nl ++ js "[1]" ++ nl ++ js "- b"
           ++ nl ++ js "[ rUles ]" ++ nl ++ js "- c"))
  = Some {| scopes := [(GLOBAL_KEY, []);
                       (js "RULES", [js "- a"; js "- c"]);
                       (js "1", [js "- b"])];
            availableScopes := [js "1"; GLOBAL_KEY; js "RULES"] |}
  /\ V2.useKnowledgeScoper latinUpperCase
       (Some (js "[Rules]" ++ nl ++ js "- a" ++ nl ++ js "[1]" ++ nl ++ js "- b"
              ++ nl ++ js "[ rUles ]" ++ nl ++ js "- c"))
     = Some {| scopes := [(GLOBAL_KEY, []);
                          (js "RULES", [js "- a"; js "- c"]);
                          (js "1", [js "- b"])];
               availableScopes := [js "1"; GLOBAL_KEY; js "RULES"] |}
  /\ V3.useKnowledgeScoper latinUpperCase
       (Some (js "[5]" ++ nl ++ js "[3]" ++ nl ++ js "[ 5 ]"))
     = Some {| scopes := [(GLOBAL_KEY, []); (js "5", []); (js "3", [])];
               availableScopes := [js "3"; js "5"; GLOBAL_KEY] |}.
Proof.
  split; [|split]; vm_compute; reflexivity.
Qed.

(** C10.  When no non-blank line of the input is an implicit header (one
    that passes the look-ahead test without matching an explicit
    pattern), version 2 and version 3 return the same result: the same
    table in the same order and the same key list. *)
Theorem v2_and_v3_agree_without_implicit_headers :
  forall (toUpperCase : jsstring -> jsstring) (rawRules : option jsstring),
    (forall raw, rawRules = Some raw ->
                 V3Aux.noImplicitHeader (split_lines raw) = true) ->
    V2.useKnowledgeScoper toUpperCase rawRules
    = V3.useKnowledgeScoper toUpperCase rawRules.
Proof.
  intros toUpperCase [raw|] H; [|reflexivity].
  unfold V2.useKnowledgeScoper, V3.useKnowledgeScoper.
  destruct raw as [|c raw]; [reflexivity|].
  now rewrite (V2_V3_same_pass toUpperCase _ _ (H _ eq_refl)).
Qed.

Lemma v2_and_v3_agree_without_implicit_headers_witness :
  (forall raw, Some scenarioA = Some raw ->
               V3Aux.noImplicitHeader (split_lines raw) = true)
  /\ V2.useKnowledgeScoper latinUpperCase (Some scenarioA)
     = V3.useKnowledgeScoper latinUpperCase (Some scenarioA).
Proof.
  assert (H : forall raw, Some scenarioA = Some raw ->
                          V3Aux.noImplicitHeader (split_lines raw) = true).
  { intros raw E. injection E as <-. vm_compute. reflexivity. }
  split; [exact H|].
  exact (v2_and_v3_agree_without_implicit_headers latinUpperCase (Some scenarioA) H).
Defined.

(** * Further properties *)

(** ** The passes as a sequence of line kinds *)

Section KindFacts.

Variable toUpperCase : jsstring -> jsstring.

Lemma applyScoping_act d line st :
  isEmpty line = false ->
  applyScoping toUpperCase d line st = act (kindOf toUpperCase d line) st.
Proof.
  intros E. unfold applyScoping, kindOf. rewrite E.
  destruct d as [[|c h]|]; simpl; try reflexivity.
  now destruct (notSystemTag _).
Qed.

Lemma V3_iteration_act l rest st :
  V3.iteration toUpperCase l rest st
  = act (kindOf toUpperCase (V3.detectHeader (trim l) rest) (trim l)) st.
Proof.
  unfold V3.iteration. destruct (isEmpty (trim l)) eqn:E.
  - unfold kindOf. now rewrite E.
  - now apply applyScoping_act.
Qed.

Lemma V3_loop_run lines st :
  V3.loop toUpperCase lines st = run (kindsV3 toUpperCase lines) st.
Proof.
  revert st. induction lines as [|l rest IH]; simpl; intros st; [reflexivity|].
  rewrite V3_iteration_act.
  destruct (act _ st); [apply IH | reflexivity].
Qed.

Lemma V2_forEach_run lines st :
  V2.forEach toUpperCase lines st = run (kindsV2 toUpperCase lines) st.
Proof.
  revert st. induction lines as [|l rest IH]; simpl; intros st; [reflexivity|].
  assert (A : V2.visit toUpperCase l st
              = act (kindOf toUpperCase (explicitHeader (trim l)) (trim l)) st).
  { unfold V2.visit. destruct (isEmpty (trim l)) eqn:E.
    - unfold kindOf. now rewrite E.
    - now apply applyScoping_act. }
  rewrite A. destruct (act _ st); [apply IH | reflexivity].
Qed.

(** The early return for the empty string is what the pass would give. *)
Lemma V3_useKnowledgeScoper_run raw :
  V3.useKnowledgeScoper toUpperCase (Some raw)
  = option_map finish (run (kindsV3 toUpperCase (split_lines raw)) initialState).
Proof.
  destruct raw as [|c raw]; [reflexivity|].
  unfold V3.useKnowledgeScoper. now rewrite V3_loop_run.
Qed.

Lemma V2_useKnowledgeScoper_run raw :
  V2.useKnowledgeScoper toUpperCase (Some raw)
  = option_map finish (run (kindsV2 toUpperCase (split_lines raw)) initialState).
Proof.
  destruct raw as [|c raw]; [reflexivity|].
  unfold V2.useKnowledgeScoper. now rewrite V2_forEach_run.
Qed.

Lemma headerKeys_V3_normalized lines key :
  In key (headerKeys (kindsV3 toUpperCase lines)) ->
  exists h, key = normalizeScope toUpperCase h.
Proof.
  induction lines as [|l rest IH]; simpl; [contradiction|].
  unfold kindOf at 1. destruct (isEmpty (trim l)); [exact IH|].
  destruct (V3.detectHeader (trim l) rest) as [[|c h]|]; try exact IH.
  destruct (notSystemTag _); [|exact IH].
  intros [<- | H]; [now eexists | now apply IH].
Qed.

Lemma headerKeys_V2_normalized lines key :
  In key (headerKeys (kindsV2 toUpperCase lines)) ->
  exists h, key = normalizeScope toUpperCase h.
Proof.
  induction lines as [|l rest IH]; simpl; [contradiction|].
  unfold kindOf at 1. destruct (isEmpty (trim l)); [exact IH|].
  destruct (explicitHeader (trim l)) as [[|c h]|]; try exact IH.
  destruct (notSystemTag _); [|exact IH].
  intros [<- | H]; [now eexists | now apply IH].
Qed.

Lemma contentLines_V3_origin lines t :
  In t (contentLines (kindsV3 toUpperCase lines)) ->
  t <> [] /\ exists l, In l lines /\ t = trim l.
Proof.
  induction lines as [|l rest IH]; simpl; [contradiction|].
  assert (Hrest : In t (contentLines (kindsV3 toUpperCase rest)) ->
                  t <> [] /\ exists l0, (l = l0 \/ In l0 rest) /\ t = trim l0).
  { intros H. destruct (IH H) as (Hne & l0 & Hin & E). split; [exact Hne|].
    exists l0. now split; [right|]. }
  unfold kindOf at 1. destruct (isEmpty (trim l)) eqn:Em; [exact Hrest|].
  assert (Hhere : t = trim l \/ In t (contentLines (kindsV3 toUpperCase rest)) ->
                  t <> [] /\ exists l0, (l = l0 \/ In l0 rest) /\ t = trim l0).
  { intros [-> | H]; [|now apply Hrest]. split.
    - intros E. rewrite E in Em. discriminate Em.
    - exists l. now split; [left|]. }
  destruct (V3.detectHeader (trim l) rest) as [[|c h]|]; simpl;
    try (intros [<- | H]; apply Hhere; [now left | now right]).
  destruct (notSystemTag _); exact Hrest.
Qed.

End KindFacts.

(** ** What a run of line kinds does *)

Lemma bucketOf_openScope key st k :
  bucketOf (st_scopes (openScope key st)) k = bucketOf (st_scopes st) k.
Proof.
  destruct (openScope_keys key st) as (_ & [(_ & ->) | (Hnew & -> & _)]);
    [reflexivity|].
  unfold bucketOf. destruct (list_eq_dec N.eq_dec k key) as [-> | Hne].
  - rewrite getOwn_setOwn_same. apply getOwn_None in Hnew. now rewrite Hnew.
  - now rewrite getOwn_setOwn_other.
Qed.

(** Each bucket receives, in input order, the content lines read while
    its key is the current scope. *)
Lemma run_filed kinds st st' k :
  run kinds st = Some st' ->
  bucketOf (st_scopes st') k
  = bucketOf (st_scopes st) k ++ filedUnder k (currentScope st) kinds.
Proof.
  revert st. induction kinds as [|kind rest IH]; simpl; intros st H.
  - injection H as <-. now rewrite app_nil_r.
  - destruct kind as [| |key|text]; simpl in H.
    + now apply IH.
    + now apply IH.
    + rewrite (IH _ H), bucketOf_openScope.
      now destruct (openScope_keys key st) as (-> & _).
    + destruct (pushContent text st) as [st1|] eqn:P; [|discriminate].
      rewrite (IH _ H).
      apply pushContent_Some in P as (xs & Hc & ->). simpl.
      unfold bucketOf.
      destruct (String_eqb (currentScope st) k) eqn:E.
      * apply String_eqb_eq in E. subst k.
        rewrite getOwn_setOwn_same, Hc, <- app_assoc. reflexivity.
      * apply String_eqb_neq in E.
        rewrite getOwn_setOwn_other by congruence. reflexivity.
Qed.

Lemma existsb_String_eqb k ks : existsb (String_eqb k) ks = true <-> In k ks.
Proof.
  rewrite existsb_exists. split.
  - intros (x & Hin & E). apply String_eqb_eq in E. now subst.
  - intros Hin. exists k. split; [exact Hin | apply String_eqb_refl].
Qed.

Lemma keys_openScope key st :
  existsb (String_eqb key) prototypeNames = false ->
  map fst (st_scopes (openScope key st)) = addKey (map fst (st_scopes st)) key.
Proof.
  intros Hp. unfold addKey.
  destruct (openScope_keys key st) as (_ & [([Hin | Hproto] & ->) | (Hnew & _ & ->)]).
  - apply existsb_String_eqb in Hin. now rewrite Hin.
  - congruence.
  - destruct (existsb (String_eqb key) (map fst (st_scopes st))) eqn:E;
      [|reflexivity].
    apply existsb_String_eqb in E. contradiction.
Qed.

(** Scopes are created in the order in which their keys first appear. *)
Lemma run_keys kinds st st' :
  (forall key, In key (headerKeys kinds) ->
               existsb (String_eqb key) prototypeNames = false) ->
  run kinds st = Some st' ->
  map fst (st_scopes st') = fold_left addKey (headerKeys kinds) (map fst (st_scopes st)).
Proof.
  revert st. induction kinds as [|kind rest IH]; simpl; intros st Hp H.
  - now injection H as <-.
  - destruct kind as [| |key|text]; simpl in *.
    + now apply IH.
    + now apply IH.
    + rewrite (IH _ (fun k Hk => Hp k (or_intror Hk)) H).
      now rewrite keys_openScope by (apply Hp; now left).
    + destruct (pushContent text st) as [st1|] eqn:P; [|discriminate].
      rewrite (IH _ Hp H). now apply pushContent_keys in P as [-> _].
Qed.

Lemma concat_setOwn_push (o : object) k xs t :
  getOwn o k = Some xs ->
  Permutation (List.concat (map snd (setOwn o k (xs ++ [t]))))
              (List.concat (map snd o) ++ [t]).
Proof.
  induction o as [|[k' v] o IH]; simpl; [discriminate|].
  destruct (String_eqb k' k); simpl.
  - intros [= ->]. rewrite <- !app_assoc. apply Permutation_app_head.
    apply Permutation_app_comm.
  - intros H. rewrite <- app_assoc. now apply Permutation_app_head, IH.
Qed.

Lemma concat_openScope key st :
  List.concat (map snd (st_scopes (openScope key st))) = List.concat (map snd (st_scopes st)).
Proof.
  destruct (openScope_keys key st) as (_ & [(_ & ->) | (Hnew & -> & _)]);
    [reflexivity|].
  apply getOwn_None in Hnew. revert Hnew.
  induction (st_scopes st) as [|[k' v] o IH]; simpl; [reflexivity|].
  destruct (String_eqb k' key); [discriminate|]. intros H. simpl.
  now rewrite IH.
Qed.

(** No content line is lost, duplicated or invented. *)
Lemma run_content kinds st st' :
  run kinds st = Some st' ->
  Permutation (List.concat (map snd (st_scopes st')))
              (List.concat (map snd (st_scopes st)) ++ contentLines kinds).
Proof.
  revert st. induction kinds as [|kind rest IH]; simpl; intros st H.
  - injection H as <-. now rewrite app_nil_r.
  - destruct kind as [| |key|text]; simpl in H.
    + now apply IH.
    + now apply IH.
    + rewrite <- (concat_openScope key st). now apply IH.
    + destruct (pushContent text st) as [st1|] eqn:P; [|discriminate].
      eapply perm_trans; [apply (IH _ H)|].
      apply pushContent_Some in P as (xs & Hc & ->). simpl.
      change (text :: contentLines rest) with ([text] ++ contentLines rest).
      rewrite app_assoc. apply Permutation_app_tail.
      now apply concat_setOwn_push.
Qed.

Lemma bucketOf_initial k : bucketOf (st_scopes initialState) k = [].
Proof.
  unfold bucketOf, initialState. cbn [st_scopes getOwn].
  now destruct (String_eqb GLOBAL_KEY k).
Qed.

Lemma firstAppearances_global ks :
  firstAppearances (GLOBAL_KEY :: ks) = fold_left addKey ks [GLOBAL_KEY].
Proof. reflexivity. Qed.

Lemma not_on_prototype (toUpperCase : jsstring -> jsstring) key :
  (forall s, noLowerLatin (toUpperCase s) = true) ->
  (exists h, key = normalizeScope toUpperCase h) ->
  existsb (String_eqb key) prototypeNames = false.
Proof.
  intros Hup [h ->]. apply not_true_iff_false. intros H.
  apply prototypeNames_lower in H. unfold normalizeScope in H.
  rewrite Hup in H. discriminate H.
Qed.

(** What both versions return, in terms of the run of line kinds. *)
Lemma V3_result_run (toUpperCase : jsstring -> jsstring) raw :
  (forall s, noLowerLatin (toUpperCase s) = true) ->
  exists st,
    run (kindsV3 toUpperCase (split_lines raw)) initialState = Some st
    /\ V3.useKnowledgeScoper toUpperCase (Some raw) = Some (finish st).
Proof.
  intros Hup. destruct (V3_returns toUpperCase Hup (Some raw)) as [r Hr].
  rewrite V3_useKnowledgeScoper_run in *.
  destruct (run _ initialState) as [st|]; [|discriminate].
  now exists st.
Qed.

Lemma V2_result_run (toUpperCase : jsstring -> jsstring) raw :
  (forall s, noLowerLatin (toUpperCase s) = true) ->
  exists st,
    run (kindsV2 toUpperCase (split_lines raw)) initialState = Some st
    /\ V2.useKnowledgeScoper toUpperCase (Some raw) = Some (finish st).
Proof.
  intros Hup. destruct (V2_returns toUpperCase Hup (Some raw)) as [r Hr].
  rewrite V2_useKnowledgeScoper_run in *.
  destruct (run _ initialState) as [st|]; [|discriminate].
  now exists st.
Qed.

(** X1.  In the result of either version the bucket of a scope holds, in
    input order, exactly the content lines read while that scope was the
    current one: from the header that selected it to the next header that
    is not a system tag, the global scope being current at the start.  A
    name without a bucket has no such line. *)
Theorem bucket_holds_the_lines_read_under_its_scope :
  forall toUpperCase : jsstring -> jsstring,
    (forall s, noLowerLatin (toUpperCase s) = true) ->
    forall raw : jsstring,
    exists r3 r2,
      V3.useKnowledgeScoper toUpperCase (Some raw) = Some r3
      /\ V2.useKnowledgeScoper toUpperCase (Some raw) = Some r2
      /\ (forall k, bucketOf (scopes r3) k
                    = filedUnder k GLOBAL_KEY (kindsV3 toUpperCase (split_lines raw)))
      /\ (forall k, bucketOf (scopes r2) k
                    = filedUnder k GLOBAL_KEY (kindsV2 toUpperCase (split_lines raw))).
Proof.
  intros toUpperCase Hup raw.
  destruct (V3_result_run toUpperCase raw Hup) as (s3 & R3 & H3).
  destruct (V2_result_run toUpperCase raw Hup) as (s2 & R2 & H2).
  exists (finish s3), (finish s2). repeat split; try assumption; intros k; simpl.
  - now rewrite (run_filed _ _ _ k R3), bucketOf_initial.
  - now rewrite (run_filed _ _ _ k R2), bucketOf_initial.
Qed.

Lemma bucket_holds_the_lines_read_under_its_scope_witness :
  (forall s, noLowerLatin (latinUpperCase s) = true)
  /\ exists r3,
       V3.useKnowledgeScoper latinUpperCase (Some scenarioRepeated) = Some r3
       /\ bucketOf (scopes r3) (js "RULES")
          = filedUnder (js "RULES") GLOBAL_KEY
              (kindsV3 latinUpperCase (split_lines scenarioRepeated)).
Proof.
  split; [exact latinUpperCase_no_lower|].
  destruct (bucket_holds_the_lines_read_under_its_scope
              latinUpperCase latinUpperCase_no_lower scenarioRepeated)
    as (r3 & r2 & H3 & _ & B3 & _).
  exists r3. split; [exact H3 | apply B3].
Defined.

(** X2.  Scopes are created in the order in which their keys first
    appear among the header lines, after the global key; so when no key
    is an array index, [availableScopes] is the global key followed by
    the header keys in order of first appearance. *)
Theorem scopes_are_created_in_order_of_first_appearance :
  forall toUpperCase : jsstring -> jsstring,
    (forall s, noLowerLatin (toUpperCase s) = true) ->
    forall raw : jsstring,
    exists r3 r2,
      V3.useKnowledgeScoper toUpperCase (Some raw) = Some r3
      /\ V2.useKnowledgeScoper toUpperCase (Some raw) = Some r2
      /\ map fst (scopes r3)
         = firstAppearances
             (GLOBAL_KEY :: headerKeys (kindsV3 toUpperCase (split_lines raw)))
      /\ map fst (scopes r2)
         = firstAppearances
             (GLOBAL_KEY :: headerKeys (kindsV2 toUpperCase (split_lines raw)))
      /\ (forallb isNamedKey (map fst (scopes r3)) = true ->
          availableScopes r3 = map fst (scopes r3))
      /\ (forallb isNamedKey (map fst (scopes r2)) = true ->
          availableScopes r2 = map fst (scopes r2)).
Proof.
  intros toUpperCase Hup raw.
  destruct (V3_result_run toUpperCase raw Hup) as (s3 & R3 & H3).
  destruct (V2_result_run toUpperCase raw Hup) as (s2 & R2 & H2).
  exists (finish s3), (finish s2).
  split; [exact H3|]. split; [exact H2|]. rewrite !firstAppearances_global.
  split; [|split; [|split]]; simpl.
  - apply (run_keys _ initialState); [|exact R3].
    intros key Hk. eapply not_on_prototype; [exact Hup|].
    eapply headerKeys_V3_normalized, Hk.
  - apply (run_keys _ initialState); [|exact R2].
    intros key Hk. eapply not_on_prototype; [exact Hup|].
    eapply headerKeys_V2_normalized, Hk.
  - apply Object_keys_named.
  - apply Object_keys_named.
Qed.

Lemma scopes_are_created_in_order_of_first_appearance_witness :
  (forall s, noLowerLatin (latinUpperCase s) = true)
  /\ exists r3,
       V3.useKnowledgeScoper latinUpperCase (Some scenarioRepeated) = Some r3
       /\ map fst (scopes r3)
          = firstAppearances
              (GLOBAL_KEY
               :: headerKeys (kindsV3 latinUpperCase (split_lines scenarioRepeated))).
Proof.
  split; [exact latinUpperCase_no_lower|].
  destruct (scopes_are_created_in_order_of_first_appearance
              latinUpperCase latinUpperCase_no_lower scenarioRepeated)
    as (r3 & r2 & H3 & _ & K3 & _).
  exists r3. split; [exact H3 | exact K3].
Defined.

(** X3.  No content line is lost, duplicated or invented: the entries of
    all buckets together are, up to order, the lines that are neither
    blank nor detected as a header; in particular there are as many. *)
Theorem content_lines_are_conserved :
  forall toUpperCase : jsstring -> jsstring,
    (forall s, noLowerLatin (toUpperCase s) = true) ->
    forall raw : jsstring,
    exists r3 r2,
      V3.useKnowledgeScoper toUpperCase (Some raw) = Some r3
      /\ V2.useKnowledgeScoper toUpperCase (Some raw) = Some r2
      /\ Permutation (List.concat (map snd (scopes r3)))
                     (contentLines (kindsV3 toUpperCase (split_lines raw)))
      /\ Permutation (List.concat (map snd (scopes r2)))
                     (contentLines (kindsV2 toUpperCase (split_lines raw)))
      /\ List.length (List.concat (map snd (scopes r3)))
         = List.length (contentLines (kindsV3 toUpperCase (split_lines raw)))
      /\ List.length (List.concat (map snd (scopes r2)))
         = List.length (contentLines (kindsV2 toUpperCase (split_lines raw))).
Proof.
  intros toUpperCase Hup raw.
  destruct (V3_result_run toUpperCase raw Hup) as (s3 & R3 & H3).
  destruct (V2_result_run toUpperCase raw Hup) as (s2 & R2 & H2).
  pose proof (run_content _ _ _ R3) as P3. pose proof (run_content _ _ _ R2) as P2.
  simpl in P3, P2.
  exists (finish s3), (finish s2). repeat split; try assumption.
  - now apply Permutation_length.
  - now apply Permutation_length.
Qed.

Lemma content_lines_are_conserved_witness :
  (forall s, noLowerLatin (latinUpperCase s) = true)
  /\ exists r3,
       V3.useKnowledgeScoper latinUpperCase (Some scenarioA) = Some r3
       /\ List.length (List.concat (map snd (scopes r3)))
          = List.length (contentLines (kindsV3 latinUpperCase (split_lines scenarioA))).
Proof.
  split; [exact latinUpperCase_no_lower|].
  destruct (content_lines_are_conserved
              latinUpperCase latinUpperCase_no_lower scenarioA)
    as (r3 & r2 & H3 & _ & _ & _ & L3 & _).
  exists r3. split; [exact H3 | exact L3].
Defined.

(** ** What a bucket can contain *)

Lemma dropWhile_In (p : N -> bool) (s : jsstring) c :
  In c (dropWhile p s) -> In c s.
Proof.
  induction s as [|a s IH]; simpl; [tauto|].
  destruct (p a); [intros H; right; now apply IH | tauto].
Qed.

Lemma trim_In (s : jsstring) c : In c (trim s) -> In c s.
Proof.
  unfold trim. intros H. apply in_rev in H. apply dropWhile_In in H.
  apply in_rev in H. now apply dropWhile_In in H.
Qed.

Lemma split_lines_nonempty s : split_lines s <> [].
Proof.
  destruct s as [|c s]; simpl; [discriminate|].
  destruct (c =? LF); [discriminate|]. destruct (split_lines s); discriminate.
Qed.

Lemma split_lines_no_LF s l : In l (split_lines s) -> ~ In LF l.
Proof.
  revert l. induction s as [|c s IH]; simpl; intros l.
  - intros [<- | []]. tauto.
  - destruct (c =? LF) eqn:E.
    + intros [<- | H]; [tauto | now apply IH].
    + apply N.eqb_neq in E.
      destruct (split_lines s) as [|l0 ls] eqn:S.
      * intros [<- | []]. intros [H | []]. congruence.
      * intros [<- | H].
        -- intros [H | H]; [congruence|]. apply (IH l0); [now left | exact H].
        -- apply IH. now right.
Qed.

Lemma getOwn_In_concat (o : object) k xs y :
  getOwn o k = Some xs -> In y xs -> In y (List.concat (map snd o)).
Proof.
  induction o as [|[k' v] o IH]; simpl; [discriminate|].
  destruct (String_eqb k' k).
  - intros [= ->] H. apply in_or_app. now left.
  - intros H Hy. apply in_or_app. right. now apply IH.
Qed.

(** X4.  Whatever is recorded in a bucket of the version 3 result is one
    of the input lines with its outer white space removed: it is never
    empty, has no white space at either end and contains no line feed. *)
Theorem recorded_entries_are_trimmed_input_lines :
  forall (toUpperCase : jsstring -> jsstring) raw r k ys y,
    V3.useKnowledgeScoper toUpperCase (Some raw) = Some r ->
    getOwn (scopes r) k = Some ys ->
    In y ys ->
    y <> [] /\ NoOuterSpace y /\ ~ In LF y
    /\ exists l, In l (split_lines raw) /\ y = trim l.
Proof.
  intros toUpperCase raw r k ys y H Hk Hy.
  rewrite V3_useKnowledgeScoper_run in H.
  destruct (run _ initialState) as [st|] eqn:R; [|discriminate].
  injection H as <-. simpl in Hk.
  pose proof (run_content _ _ _ R) as P. simpl in P.
  pose proof (Permutation_in _ P (getOwn_In_concat _ _ _ _ Hk Hy)) as Hc.
  apply contentLines_V3_origin in Hc as (Hne & l & Hl & ->).
  split; [exact Hne|]. split; [apply trim_NoOuterSpace|]. split.
  - intros HLF. apply trim_In in HLF. eapply split_lines_no_LF; eassumption.
  - now exists l.
Qed.

Lemma recorded_entries_are_trimmed_input_lines_witness :
  V3.useKnowledgeScoper latinUpperCase
    (Some (js "  Intro line " ++ nl ++ js "[Rules]"))
  = Some {| scopes := [(GLOBAL_KEY, [js "Intro line"]); (js "RULES", [])];
            availableScopes := [GLOBAL_KEY; js "RULES"] |}
  /\ js "Intro line" <> []
  /\ NoOuterSpace (js "Intro line").
Proof.
  assert (H : V3.useKnowledgeScoper latinUpperCase
                (Some (js "  Intro line " ++ nl ++ js "[Rules]"))
              = Some {| scopes := [(GLOBAL_KEY, [js "Intro line"]); (js "RULES", [])];
                        availableScopes := [GLOBAL_KEY; js "RULES"] |})
    by (vm_compute; reflexivity).
  split; [exact H|].
  destruct (recorded_entries_are_trimmed_input_lines
              latinUpperCase _ _ GLOBAL_KEY [js "Intro line"] (js "Intro line")
              H eq_refl (or_introl eq_refl))
    as (Hne & Hno & _).
  exact (conj Hne Hno).
Defined.

(** X5.  In a result of either version the names in [availableScopes]
    are exactly the names that have a bucket in [scopes], each listed
    once: looking up a listed name never gives [undefined]. *)
Theorem listed_scopes_are_the_buckets :
  forall (toUpperCase : jsstring -> jsstring) rawRules r,
    V3.useKnowledgeScoper toUpperCase rawRules = Some r
    \/ V2.useKnowledgeScoper toUpperCase rawRules = Some r ->
    NoDup (availableScopes r)
    /\ List.length (availableScopes r) = List.length (scopes r)
    /\ forall k, In k (availableScopes r) <-> exists xs, getOwn (scopes r) k = Some xs.
Proof.
  intros toUpperCase rawRules r H.
  assert (W : wellFormed r /\ tableSound (scopes r)).
  { destruct H as [H | H];
      [eapply V3_result_sound, H | eapply V2_result_sound, H]. }
  destruct W as ((Hav & Hnd & _) & _). split; [exact Hnd|]. split.
  - rewrite Hav, (Permutation_length (Object_keys_perm (scopes r))).
    apply length_map.
  - intros k. rewrite Hav, Object_keys_In. split.
    + apply In_getOwn.
    + intros [xs E]. eapply getOwn_Some_In, E.
Qed.

Lemma listed_scopes_are_the_buckets_witness :
  (V3.useKnowledgeScoper latinUpperCase (Some (js "[1]"))
   = Some {| scopes := [(GLOBAL_KEY, []); (js "1", [])];
             availableScopes := [js "1"; GLOBAL_KEY] |}
   \/ V2.useKnowledgeScoper latinUpperCase (Some (js "[1]"))
      = Some {| scopes := [(GLOBAL_KEY, []); (js "1", [])];
                availableScopes := [js "1"; GLOBAL_KEY] |})
  /\ NoDup [js "1"; GLOBAL_KEY].
Proof.
  assert (H : V3.useKnowledgeScoper latinUpperCase (Some (js "[1]"))
              = Some {| scopes := [(GLOBAL_KEY, []); (js "1", [])];
                        availableScopes := [js "1"; GLOBAL_KEY] |})
    by (vm_compute; reflexivity).
  split; [left; exact H|].
  exact (proj1 (listed_scopes_are_the_buckets latinUpperCase _ _ (or_introl H))).
Defined.

(** ** Blank lines and outer white space *)

Lemma dropWhile_app (p : N -> bool) (s t : jsstring) :
  dropWhile p (s ++ t)
  = if forallb p s then dropWhile p t else dropWhile p s ++ t.
Proof.
  induction s as [|a s IH]; simpl; [reflexivity|].
  destruct (p a); simpl; [exact IH | reflexivity].
Qed.

(** White space added at the end of a line does not change its trimmed
    form. *)
Lemma trim_snoc_space (s : jsstring) w :
  isWhiteSpace w = true -> trim (s ++ [w]) = trim s.
Proof.
  intros Hw. unfold trim. rewrite dropWhile_app.
  destruct (forallb isWhiteSpace s) eqn:A.
  - simpl. rewrite Hw. now rewrite (dropWhile_all _ _ A).
  - rewrite rev_app_distr. simpl. now rewrite Hw.
Qed.

Lemma nextLine_significant rest :
  V3.nextLine (significantLines rest) = V3.nextLine rest.
Proof.
  unfold significantLines. induction rest as [|l rest IH]; simpl; [reflexivity|].
  destruct (isEmpty (trim l)) eqn:E; simpl; [exact IH|].
  now rewrite trim_idempotent, E.
Qed.

Lemma detectHeader_nextLine line rest rest' :
  V3.nextLine rest = V3.nextLine rest' ->
  V3.detectHeader line rest = V3.detectHeader line rest'.
Proof.
  intros E. unfold V3.detectHeader, V3.looksLikeHeader. now rewrite E.
Qed.

Section Significance.

Variable toUpperCase : jsstring -> jsstring.

Lemma V3_loop_significant lines st :
  V3.loop toUpperCase lines st = V3.loop toUpperCase (significantLines lines) st.
Proof.
  revert st. induction lines as [|l rest IH]; intros st; [reflexivity|].
  unfold significantLines in *. simpl. unfold V3.iteration at 1.
  destruct (isEmpty (trim l)) eqn:E; simpl; [apply IH|].
  unfold V3.iteration. rewrite trim_idempotent, E.
  rewrite (detectHeader_nextLine (trim l) rest _
             (eq_sym (nextLine_significant rest))).
  unfold significantLines.
  destruct (applyScoping toUpperCase _ (trim l) st); [apply IH | reflexivity].
Qed.

Lemma V2_forEach_significant lines st :
  V2.forEach toUpperCase lines st = V2.forEach toUpperCase (significantLines lines) st.
Proof.
  revert st. induction lines as [|l rest IH]; intros st; [reflexivity|].
  unfold significantLines in *. simpl. unfold V2.visit at 1.
  destruct (isEmpty (trim l)) eqn:E; simpl; [apply IH|].
  unfold V2.visit. rewrite trim_idempotent, E.
  destruct (applyScoping toUpperCase _ (trim l) st); [apply IH | reflexivity].
Qed.

Lemma V3_useKnowledgeScoper_loop raw :
  V3.useKnowledgeScoper toUpperCase (Some raw)
  = option_map finish (V3.loop toUpperCase (split_lines raw) initialState).
Proof. destruct raw; reflexivity. Qed.

Lemma V2_useKnowledgeScoper_forEach raw :
  V2.useKnowledgeScoper toUpperCase (Some raw)
  = option_map finish (V2.forEach toUpperCase (split_lines raw) initialState).
Proof. destruct raw; reflexivity. Qed.

End Significance.

Lemma same_significant_lines_same_result
    (toUpperCase : jsstring -> jsstring) (a b : jsstring) :
  significantLines (split_lines a) = significantLines (split_lines b) ->
  V3.useKnowledgeScoper toUpperCase (Some a)
  = V3.useKnowledgeScoper toUpperCase (Some b)
  /\ V2.useKnowledgeScoper toUpperCase (Some a)
     = V2.useKnowledgeScoper toUpperCase (Some b).
Proof.
  intros E.
  rewrite !V3_useKnowledgeScoper_loop, !V2_useKnowledgeScoper_forEach.
  rewrite (V3_loop_significant toUpperCase (split_lines a)),
    (V3_loop_significant toUpperCase (split_lines b)),
    (V2_forEach_significant toUpperCase (split_lines a)),
    (V2_forEach_significant toUpperCase (split_lines b)), E.
  split; reflexivity.
Qed.

(** X6.  The result depends on the text only through its non-blank lines
    with their outer white space removed: two texts with the same such
    lines give the same result, in either version, and a text with none
    gives the minimal result. *)
Theorem only_trimmed_non_blank_lines_matter :
  forall (toUpperCase : jsstring -> jsstring) (a b : jsstring),
    significantLines (split_lines a) = significantLines (split_lines b) ->
    V3.useKnowledgeScoper toUpperCase (Some a)
    = V3.useKnowledgeScoper toUpperCase (Some b)
    /\ V2.useKnowledgeScoper toUpperCase (Some a)
       = V2.useKnowledgeScoper toUpperCase (Some b)
    /\ (significantLines (split_lines b) = [] ->
        V3.useKnowledgeScoper toUpperCase (Some a) = Some emptyKnowledge
        /\ V2.useKnowledgeScoper toUpperCase (Some a) = Some emptyKnowledge).
Proof.
  intros toUpperCase a b E.
  destruct (same_significant_lines_same_result toUpperCase a b E) as [H3 H2].
  split; [exact H3|]. split; [exact H2|].
  intros Hb. rewrite Hb in E.
  rewrite V3_useKnowledgeScoper_loop, V2_useKnowledgeScoper_forEach.
  rewrite V3_loop_significant, V2_forEach_significant, E.
  split; reflexivity.
Qed.

Lemma only_trimmed_non_blank_lines_matter_witness :
  significantLines (split_lines (js "  [Rules] " ++ nl ++ nl ++ js " - do X"))
  = significantLines (split_lines (js "[Rules]" ++ nl ++ js "- do X"))
  /\ V3.useKnowledgeScoper latinUpperCase
       (Some (js "  [Rules] " ++ nl ++ nl ++ js " - do X"))
     = V3.useKnowledgeScoper latinUpperCase
         (Some (js "[Rules]" ++ nl ++ js "- do X")).
Proof.
  split; [reflexivity|].
  exact (proj1 (only_trimmed_non_blank_lines_matter latinUpperCase
                  (js "  [Rules] " ++ nl ++ nl ++ js " - do X")
                  (js "[Rules]" ++ nl ++ js "- do X") eq_refl)).
Defined.

(** ** Carriage returns *)

Lemma split_lines_crlf s :
  Forall2 (fun l l' => l = l' \/ l = l' ++ [13])
          (split_lines (crlf s)) (split_lines s).
Proof.
  induction s as [|c s IH]; simpl.
  - constructor; [now left | constructor].
  - destruct (c =? LF) eqn:E.
    + simpl. constructor; [now right | exact IH].
    + simpl. rewrite E.
      destruct IH as [|l l' ls ls' Hl Hls].
      * constructor; [now left | constructor].
      * constructor; [|exact Hls].
        destruct Hl as [-> | ->]; [now left | now right].
Qed.

Lemma significantLines_crlf s :
  significantLines (split_lines (crlf s)) = significantLines (split_lines s).
Proof.
  unfold significantLines. f_equal.
  induction (split_lines_crlf s) as [|l l' ls ls' Hl _ IH]; simpl; [reflexivity|].
  rewrite IH. f_equal. destruct Hl as [-> | ->]; [reflexivity|].
  now apply trim_snoc_space.
Qed.

(** X7.  Line endings do not matter: a text whose lines end in carriage
    return and line feed gives the same result as the same text with
    line feeds alone, in either version. *)
Theorem carriage_returns_change_nothing :
  forall (toUpperCase : jsstring -> jsstring) (raw : jsstring),
    V3.useKnowledgeScoper toUpperCase (Some (crlf raw))
    = V3.useKnowledgeScoper toUpperCase (Some raw)
    /\ V2.useKnowledgeScoper toUpperCase (Some (crlf raw))
       = V2.useKnowledgeScoper toUpperCase (Some raw).
Proof.
  intros toUpperCase raw.
  apply same_significant_lines_same_result, significantLines_crlf.
Qed.

(** ** The explicit patterns *)

Lemma takeWhile_all_spaces (s : jsstring) :
  forallb isWhiteSpace s = true -> takeWhile isWhiteSpace s = s.
Proof.
  induction s as [|a s IH]; simpl; [reflexivity|].
  intros H. apply andb_true_iff in H as [Ha H]. rewrite Ha. f_equal. now apply IH.
Qed.

Lemma bracketMatch_shape line t :
  bracketMatch line = Some t
  <-> t <> [] /\ forallb (fun x => negb (x =? ch "]")) t = true
      /\ (line = ch "[" :: t ++ [ch "]"] \/ line = ch "[" :: t ++ [ch "]"; ch ":"]).
Proof.
  split.
  - unfold bracketMatch. destruct line as [|c rest]; [discriminate|].
    destruct (c =? ch "[") eqn:C; [|discriminate]. apply N.eqb_eq in C. subst c.
    pose proof (take_drop (fun x => negb (x =? ch "]")) rest) as TD.
    pose proof (takeWhile_all (fun x => negb (x =? ch "]")) rest) as TA.
    destruct (takeWhile _ rest) as [|a inner]; [discriminate|].
    destruct (dropWhile _ rest) as [|x tail] eqn:D; [discriminate|].
    apply dropWhile_head in D. apply negb_false_iff, N.eqb_eq in D. subst x.
    destruct (isEmpty tail || String_eqb tail [ch ":"]) eqn:T; [|discriminate].
    intros [= <-]. split; [discriminate|]. split; [exact TA|].
    rewrite <- TD. apply orb_true_iff in T as [T | T].
    + apply isEmpty_true in T. subst tail. now left.
    + apply String_eqb_eq in T. subst tail. now right.
  - intros (Hne & Hno & [-> | ->]); apply bracketMatch_bracketed; auto.
Qed.

Lemma boldMatch_shape line t :
  boldMatch line = Some t
  <-> t <> [] /\ forallb (fun x => negb (x =? ch "*")) t = true
      /\ (line = ch "*" :: ch "*" :: t ++ [ch "*"; ch "*"]
          \/ line = ch "*" :: ch "*" :: t ++ [ch "*"; ch "*"; ch ":"]).
Proof.
  split.
  - unfold boldMatch. destruct line as [|a [|b rest]]; try discriminate.
    destruct ((a =? ch "*") && (b =? ch "*")) eqn:AB; [|discriminate].
    apply andb_true_iff in AB as [A B].
    apply N.eqb_eq in A. apply N.eqb_eq in B. subst a b.
    pose proof (take_drop (fun x => negb (x =? ch "*")) rest) as TD.
    pose proof (takeWhile_all (fun x => negb (x =? ch "*")) rest) as TA.
    destruct (takeWhile _ rest) as [|a inner]; [discriminate|].
    destruct (dropWhile _ rest) as [|c [|d tail]]; try discriminate.
    destruct ((c =? ch "*") && (d =? ch "*")
              && (isEmpty tail || String_eqb tail [ch ":"])) eqn:T; [|discriminate].
    apply andb_true_iff in T as [CD T]. apply andb_true_iff in CD as [C D].
    apply N.eqb_eq in C. apply N.eqb_eq in D. subst c d.
    intros [= <-]. split; [discriminate|]. split; [exact TA|].
    rewrite <- TD. apply orb_true_iff in T as [T | T].
    + apply isEmpty_true in T. subst tail. now left.
    + apply String_eqb_eq in T. subst tail. now right.
  - intros (Hne & Hno & Hline).
    assert (S : forall tail, tail = [] \/ tail = [ch ":"] ->
              boldMatch (ch "*" :: ch "*" :: t ++ ch "*" :: ch "*" :: tail) = Some t).
    { intros tail Htail. unfold boldMatch. rewrite N.eqb_refl. simpl andb.
      cbv iota. rewrite takeWhile_app_stop, dropWhile_app_stop;
        try assumption; try reflexivity.
      destruct t as [|c t]; [contradiction|].
      destruct Htail as [-> | ->]; reflexivity. }
    destruct Hline as [-> | ->]; apply S; auto.
Qed.

Lemma colonMatch_shape line t :
  colonMatch line = Some t
  <-> t <> [] /\ forallb isLabelUnit t = true /\ line = t ++ [ch ":"].
Proof.
  split.
  - unfold colonMatch.
    pose proof (take_drop isLabelUnit line) as TD.
    pose proof (takeWhile_all isLabelUnit line) as TA.
    destruct (takeWhile isLabelUnit line) as [|a label]; [discriminate|].
    destruct (String_eqb (dropWhile isLabelUnit line) [ch ":"]) eqn:D; [|discriminate].
    apply String_eqb_eq in D. rewrite D in TD.
    intros [= <-]. split; [discriminate|]. split; [exact TA | now symmetry].
  - intros (Hne & Hall & ->). unfold colonMatch.
    rewrite takeWhile_app_stop, dropWhile_app_stop;
      try assumption; try reflexivity.
    destruct t as [|c t]; [contradiction | reflexivity].
Qed.

Lemma mdMatch_shape line t :
  mdMatch line = Some t
  <-> exists hashes spaces,
        hashes <> [] /\ forallb (fun x => x =? ch "#") hashes = true
        /\ spaces <> [] /\ forallb isWhiteSpace spaces = true
        /\ t <> [] /\ forallb (fun x => negb (isLineTerminator x)) t = true
        /\ line = hashes ++ spaces ++ t
        /\ (forall c t', t = c :: t' -> isWhiteSpace c = true -> t' = []).
Proof.
  split.
  - unfold mdMatch. cbv zeta.
    pose proof (take_drop (fun x => x =? ch "#") line) as TD1.
    pose proof (takeWhile_all (fun x => x =? ch "#") line) as TA1.
    set (afterHashes := dropWhile (fun x => x =? ch "#") line) in *.
    pose proof (take_drop isWhiteSpace afterHashes) as TD2.
    pose proof (takeWhile_all isWhiteSpace afterHashes) as TA2.
    destruct (takeWhile (fun x => x =? ch "#") line) as [|h0 hashes] eqn:H1;
      [discriminate|].
    destruct (takeWhile isWhiteSpace afterHashes) as [|w0 spaces] eqn:H2;
      [discriminate|].
    destruct (dropWhile isWhiteSpace afterHashes) as [|r0 remainder] eqn:H3.
    + destruct spaces as [|w1 spaces]; [discriminate|].
      destruct (isLineTerminator (last (w0 :: w1 :: spaces) 0)) eqn:LT;
        [discriminate|].
      intros [= <-].
      exists (h0 :: hashes), (removelast (w0 :: w1 :: spaces)).
      assert (Hsp : w0 :: w1 :: spaces
                    = removelast (w0 :: w1 :: spaces) ++ [last (w0 :: w1 :: spaces) 0])
        by (apply app_removelast_last; discriminate).
      assert (Hall : forallb isWhiteSpace (removelast (w0 :: w1 :: spaces)) = true
                     /\ isWhiteSpace (last (w0 :: w1 :: spaces) 0) = true).
      { rewrite Hsp in TA2. rewrite forallb_app in TA2.
        apply andb_true_iff in TA2 as [A B]. split; [exact A|].
        simpl in B. now rewrite andb_true_r in B. }
      assert (F : forallb (fun x => negb (isLineTerminator x))
                    [last (w0 :: w1 :: spaces) 0] = true)
        by (cbn [forallb]; now rewrite LT).
      split; [discriminate|]. split; [exact TA1|].
      split; [simpl; discriminate|]. split; [apply Hall|].
      split; [discriminate|]. split; [exact F|]. split.
      * rewrite <- TD1, <- TD2, app_nil_r. f_equal. exact Hsp.
      * intros c t' [= <- <-] _. reflexivity.
    + destruct (forallb (fun x => negb (isLineTerminator x)) (r0 :: remainder)) eqn:LT;
        [|discriminate].
      intros [= <-]. exists (h0 :: hashes), (w0 :: spaces).
      split; [discriminate|]. split; [exact TA1|].
      split; [discriminate|]. split; [exact TA2|].
      split; [discriminate|]. split; [exact LT|]. split.
      * now rewrite <- TD1, <- TD2.
      * intros c t' [= <- <-] Hc. apply dropWhile_head in H3. congruence.
  - intros (hashes & spaces & Hh & Hha & Hs & Hsa & Ht & Hta & -> & Hback).
    destruct spaces as [|w0 spaces]; [contradiction|].
    destruct t as [|c t]; [contradiction|].
    assert (Hw0 : (w0 =? ch "#") = false).
    { simpl in Hsa. apply andb_true_iff in Hsa as [Hw _].
      destruct (w0 =? ch "#") eqn:E; [|reflexivity].
      apply N.eqb_eq in E. subst w0. discriminate Hw. }
    unfold mdMatch. cbv zeta. rewrite <- app_comm_cons.
    rewrite takeWhile_app_stop, dropWhile_app_stop by assumption.
    destruct hashes as [|h0 hashes]; [contradiction|].
    destruct (isWhiteSpace c) eqn:Hc.
    + rewrite (Hback c t eq_refl Hc) in *.
      assert (A : forallb isWhiteSpace ((w0 :: spaces) ++ [c]) = true)
        by (rewrite forallb_app, Hsa; simpl; now rewrite Hc).
      change (w0 :: spaces ++ [c]) with ((w0 :: spaces) ++ [c]).
      rewrite (takeWhile_all_spaces _ A), (dropWhile_all _ _ A).
      destruct spaces as [|w1 spaces]; simpl app.
      * simpl in Hta. rewrite andb_true_r in Hta. apply negb_true_iff in Hta.
        simpl. now rewrite Hta.
      * assert (L : last (w0 :: w1 :: spaces ++ [c]) 0 = c).
        { change (w0 :: w1 :: spaces ++ [c]) with ((w0 :: w1 :: spaces) ++ [c]).
          apply last_last. }
        rewrite L. simpl in Hta. rewrite andb_true_r in Hta.
        apply negb_true_iff in Hta. now rewrite Hta.
    + change (w0 :: spaces ++ c :: t) with ((w0 :: spaces) ++ c :: t).
      rewrite takeWhile_app_stop, dropWhile_app_stop by assumption.
      now rewrite Hta.
Qed.

Lemma explicit_heads line t :
  (bracketMatch line = Some t -> hd_error line = Some (ch "["))
  /\ (mdMatch line = Some t -> hd_error line = Some (ch "#"))
  /\ (boldMatch line = Some t -> hd_error line = Some (ch "*"))
  /\ (colonMatch line = Some t ->
      exists c, hd_error line = Some c /\ isLabelUnit c = true).
Proof.
  split; [|split; [|split]].
  - intros H. apply bracketMatch_shape in H as (_ & _ & [-> | ->]); reflexivity.
  - intros H. apply mdMatch_shape in H
      as (hashes & spaces & Hh & Hha & _ & _ & _ & _ & -> & _).
    destruct hashes as [|h hashes]; [contradiction|]. simpl in *.
    apply andb_true_iff in Hha as [Hh0 _]. apply N.eqb_eq in Hh0. now subst h.
  - intros H. apply boldMatch_shape in H as (_ & _ & [-> | ->]); reflexivity.
  - intros H. apply colonMatch_shape in H as (Hne & Hall & ->).
    destruct t as [|c t]; [contradiction|]. simpl in *.
    apply andb_true_iff in Hall as [Hc _]. now exists c.
Qed.

(** X8.  Each explicit pattern recognises exactly the lines of its
    shape and captures the text inside: brackets around a non-empty text
    free of closing brackets, hashes followed by white space and a text
    without line terminators, double asterisks around a non-empty text
    free of asterisks (the last two with an optional colon after them),
    and a non-empty run of letters, digits, spaces, [_], [/] and [-]
    followed by one colon. *)
Theorem explicit_patterns_recognise_exactly_their_shapes :
  forall line t : jsstring,
    (bracketMatch line = Some t
     <-> t <> [] /\ forallb (fun x => negb (x =? ch "]")) t = true
         /\ (line = ch "[" :: t ++ [ch "]"]
             \/ line = ch "[" :: t ++ [ch "]"; ch ":"]))
    /\ (mdMatch line = Some t
        <-> exists hashes spaces,
              hashes <> [] /\ forallb (fun x => x =? ch "#") hashes = true
              /\ spaces <> [] /\ forallb isWhiteSpace spaces = true
              /\ t <> [] /\ forallb (fun x => negb (isLineTerminator x)) t = true
              /\ line = hashes ++ spaces ++ t
              /\ (forall c t', t = c :: t' -> isWhiteSpace c = true -> t' = []))
    /\ (boldMatch line = Some t
        <-> t <> [] /\ forallb (fun x => negb (x =? ch "*")) t = true
            /\ (line = ch "*" :: ch "*" :: t ++ [ch "*"; ch "*"]
                \/ line = ch "*" :: ch "*" :: t ++ [ch "*"; ch "*"; ch ":"]))
    /\ (colonMatch line = Some t
        <-> t <> [] /\ forallb isLabelUnit t = true /\ line = t ++ [ch ":"]).
Proof.
  intros line t. split; [apply bracketMatch_shape|].
  split; [apply mdMatch_shape|]. split; [apply boldMatch_shape|].
  apply colonMatch_shape.
Qed.

(** X9.  No line matches two of the four explicit patterns, since they
    start differently; so the order in which the four are tried does not
    matter: the explicit header of a line is the capture of whichever
    pattern matches, the colon pattern counting only under 50 code
    units. *)
Theorem explicit_patterns_exclude_each_other :
  forall line : jsstring,
    (bracketMatch line <> None ->
     mdMatch line = None /\ boldMatch line = None /\ colonMatch line = None)
    /\ (mdMatch line <> None ->
        bracketMatch line = None /\ boldMatch line = None /\ colonMatch line = None)
    /\ (boldMatch line <> None ->
        bracketMatch line = None /\ mdMatch line = None /\ colonMatch line = None)
    /\ (colonMatch line <> None ->
        bracketMatch line = None /\ mdMatch line = None /\ boldMatch line = None)
    /\ (forall h,
           explicitHeader line = Some h
           <-> bracketMatch line = Some h \/ mdMatch line = Some h
               \/ boldMatch line = Some h
               \/ (colonMatch line = Some h /\ (strlen line < 50)%N)).
Proof.
  intros line.
  assert (Hb : forall t, bracketMatch line = Some t -> hd_error line = Some (ch "["))
    by (intros t; apply explicit_heads).
  assert (Hm : forall t, mdMatch line = Some t -> hd_error line = Some (ch "#"))
    by (intros t; apply explicit_heads).
  assert (Ho : forall t, boldMatch line = Some t -> hd_error line = Some (ch "*"))
    by (intros t; apply explicit_heads).
  assert (Hc : forall t, colonMatch line = Some t ->
                exists c, hd_error line = Some c /\ isLabelUnit c = true)
    by (intros t; apply (explicit_heads line t)).
  assert (Excl :
    (forall b m, bracketMatch line = Some b -> mdMatch line = Some m -> False)
    /\ (forall b o, bracketMatch line = Some b -> boldMatch line = Some o -> False)
    /\ (forall b c, bracketMatch line = Some b -> colonMatch line = Some c -> False)
    /\ (forall m o, mdMatch line = Some m -> boldMatch line = Some o -> False)
    /\ (forall m c, mdMatch line = Some m -> colonMatch line = Some c -> False)
    /\ (forall o c, boldMatch line = Some o -> colonMatch line = Some c -> False)).
  { repeat split; intros x y Hx Hy.
    - apply Hb in Hx. apply Hm in Hy. rewrite Hx in Hy. discriminate Hy.
    - apply Hb in Hx. apply Ho in Hy. rewrite Hx in Hy. discriminate Hy.
    - apply Hb in Hx. apply Hc in Hy as (c & Hy & L). rewrite Hx in Hy.
      injection Hy as <-. discriminate L.
    - apply Hm in Hx. apply Ho in Hy. rewrite Hx in Hy. discriminate Hy.
    - apply Hm in Hx. apply Hc in Hy as (c & Hy & L). rewrite Hx in Hy.
      injection Hy as <-. discriminate L.
    - apply Ho in Hx. apply Hc in Hy as (c & Hy & L). rewrite Hx in Hy.
      injection Hy as <-. discriminate L. }
  destruct Excl as (E1 & E2 & E3 & E4 & E5 & E6).
  split; [|split; [|split; [|split]]].
  - destruct (bracketMatch line) as [b|] eqn:B; [intros _ | congruence].
    destruct (mdMatch line) eqn:M; [exfalso; eapply E1; eauto|].
    destruct (boldMatch line) eqn:O; [exfalso; eapply E2; eauto|].
    destruct (colonMatch line) eqn:C; [exfalso; eapply E3; eauto|]. tauto.
  - destruct (mdMatch line) as [m|] eqn:M; [intros _ | congruence].
    destruct (bracketMatch line) eqn:B; [exfalso; eapply E1; eauto|].
    destruct (boldMatch line) eqn:O; [exfalso; eapply E4; eauto|].
    destruct (colonMatch line) eqn:C; [exfalso; eapply E5; eauto|]. tauto.
  - destruct (boldMatch line) as [o|] eqn:O; [intros _ | congruence].
    destruct (bracketMatch line) eqn:B; [exfalso; eapply E2; eauto|].
    destruct (mdMatch line) eqn:M; [exfalso; eapply E4; eauto|].
    destruct (colonMatch line) eqn:C; [exfalso; eapply E6; eauto|]. tauto.
  - destruct (colonMatch line) as [c|] eqn:C; [intros _ | congruence].
    destruct (bracketMatch line) eqn:B; [exfalso; eapply E3; eauto|].
    destruct (mdMatch line) eqn:M; [exfalso; eapply E5; eauto|].
    destruct (boldMatch line) eqn:O; [exfalso; eapply E6; eauto|]. tauto.
  - intros h. rewrite explicitHeader_spec. split.
    + intros [H | [(_ & H) | [(_ & _ & H) | (_ & _ & _ & H)]]]; tauto.
    + intros [H | [H | [H | (H & L)]]].
      * now left.
      * right. left. split; [|exact H].
        destruct (bracketMatch line) eqn:B; [exfalso; eapply E1; eauto | reflexivity].
      * right. right. left.
        destruct (bracketMatch line) eqn:B; [exfalso; eapply E2; eauto|].
        destruct (mdMatch line) eqn:M; [exfalso; eapply E4; eauto|]. tauto.
      * do 3 right.
        destruct (bracketMatch line) eqn:B; [exfalso; eapply E3; eauto|].
        destruct (mdMatch line) eqn:M; [exfalso; eapply E5; eauto|].
        destruct (boldMatch line) eqn:O; [exfalso; eapply E6; eauto|]. tauto.
Qed.

(** ** Keys are normal forms *)

Lemma isWhiteSpace_upperUnit c : isWhiteSpace (upperUnit c) = isWhiteSpace c.
Proof.
  unfold upperUnit, isLowerLatin.
  destruct ((97 <=? c) && (c <=? 122)) eqn:L; [|reflexivity].
  apply andb_true_iff in L as [L1 L2]. apply N.leb_le in L1. apply N.leb_le in L2.
  assert (F : forall x, 65 <= x <= 122 -> isWhiteSpace x = false).
  { intros x Hx. unfold isWhiteSpace.
    assert ((x <=? 13) = false) as -> by (apply N.leb_gt; lia).
    assert ((8192 <=? x) = false) as -> by (apply N.leb_gt; lia).
    repeat match goal with
           | |- context [x =? ?n] =>
               assert ((x =? n) = false) as -> by (apply N.eqb_neq; lia)
           end.
    now rewrite andb_false_r. }
  rewrite (F c) by lia. apply F. lia.
Qed.

Lemma dropWhile_latinUpperCase (s : jsstring) :
  dropWhile isWhiteSpace (latinUpperCase s)
  = latinUpperCase (dropWhile isWhiteSpace s).
Proof.
  unfold latinUpperCase. induction s as [|c s IH]; simpl; [reflexivity|].
  rewrite isWhiteSpace_upperUnit. now destruct (isWhiteSpace c).
Qed.

Lemma trim_latinUpperCase (s : jsstring) :
  trim (latinUpperCase s) = latinUpperCase (trim s).
Proof.
  unfold trim. rewrite dropWhile_latinUpperCase.
  unfold latinUpperCase at 1. rewrite <- map_rev.
  fold (latinUpperCase (rev (dropWhile isWhiteSpace s))).
  rewrite dropWhile_latinUpperCase. unfold latinUpperCase. now rewrite map_rev.
Qed.

Lemma upperUnit_idempotent c : upperUnit (upperUnit c) = upperUnit c.
Proof.
  unfold upperUnit, isLowerLatin.
  destruct ((97 <=? c) && (c <=? 122)) eqn:L; [|now rewrite L].
  apply andb_true_iff in L as [L1 L2]. apply N.leb_le in L1. apply N.leb_le in L2.
  assert ((97 <=? c - 32) = false) as -> by (apply N.leb_gt; lia). reflexivity.
Qed.

Lemma latinUpperCase_idempotent s :
  latinUpperCase (latinUpperCase s) = latinUpperCase s.
Proof.
  unfold latinUpperCase. rewrite map_map. apply map_ext, upperUnit_idempotent.
Qed.

Lemma isBasicLatin_trim s : isBasicLatin s = true -> isBasicLatin (trim s) = true.
Proof.
  unfold isBasicLatin. rewrite !forallb_forall. intros H c Hc.
  apply H. now apply trim_In.
Qed.

Lemma isBasicLatin_upper s :
  isBasicLatin s = true -> isBasicLatin (latinUpperCase s) = true.
Proof.
  unfold isBasicLatin, latinUpperCase. rewrite !forallb_forall. intros H u Hu.
  apply in_map_iff in Hu as (c & <- & Hc). specialize (H c Hc).
  apply N.ltb_lt in H. apply N.ltb_lt. unfold upperUnit.
  destruct (isLowerLatin c); lia.
Qed.

(** The key of a Basic Latin header text, and what normalising it again
    gives. *)
Lemma normalizeScope_latin (toUpperCase : jsstring -> jsstring) h :
  (forall s, isBasicLatin s = true -> toUpperCase s = latinUpperCase s) ->
  isBasicLatin h = true ->
  normalizeScope toUpperCase h = latinUpperCase (trim h)
  /\ normalizeScope toUpperCase (normalizeScope toUpperCase h)
     = normalizeScope toUpperCase h.
Proof.
  intros Hlatin L. unfold normalizeScope.
  pose proof (isBasicLatin_trim h L) as Lt.
  rewrite (Hlatin _ Lt). split; [reflexivity|].
  rewrite trim_latinUpperCase, trim_idempotent.
  rewrite (Hlatin _ (isBasicLatin_upper _ Lt)). apply latinUpperCase_idempotent.
Qed.

(** X10.  A scope name is a normal form: normalising the key of a Basic
    Latin header text again gives the same key.  So a name taken from
    the result and written as a bracketed header line (it must not be
    empty nor contain a closing bracket) is detected with that very
    text, and the line selects that very scope, unless the text is a
    system tag. *)
Theorem scope_names_are_normal_forms :
  forall (toUpperCase : jsstring -> jsstring) (h : jsstring),
    (forall s, isBasicLatin s = true -> toUpperCase s = latinUpperCase s) ->
    isBasicLatin h = true ->
    normalizeScope toUpperCase (normalizeScope toUpperCase h)
    = normalizeScope toUpperCase h
    /\ (normalizeScope toUpperCase h <> [] ->
        forallb (fun x => negb (x =? ch "]")) (normalizeScope toUpperCase h) = true ->
        forall rest,
          V3.detectHeader (ch "[" :: normalizeScope toUpperCase h ++ [ch "]"]) rest
          = Some (normalizeScope toUpperCase h)
          /\ kindOf toUpperCase
               (V3.detectHeader (ch "[" :: normalizeScope toUpperCase h ++ [ch "]"]) rest)
               (ch "[" :: normalizeScope toUpperCase h ++ [ch "]"])
             = if notSystemTag (normalizeScope toUpperCase h)
               then HeaderLine (normalizeScope toUpperCase h)
               else TagLine).
Proof.
  intros toUpperCase h Hlatin L.
  destruct (normalizeScope_latin toUpperCase h Hlatin L) as [_ Hidem].
  split; [exact Hidem|]. intros Hne Hno rest.
  assert (D : V3.detectHeader (ch "[" :: normalizeScope toUpperCase h ++ [ch "]"]) rest
              = Some (normalizeScope toUpperCase h)).
  { apply detectHeader_explicit. unfold explicitHeader.
    rewrite bracketMatch_bracketed; auto. }
  split; [exact D|]. rewrite D. unfold kindOf. cbn [isEmpty].
  destruct (normalizeScope toUpperCase h) as [|c k] eqn:K; [contradiction|].
  now rewrite Hidem.
Qed.

Lemma scope_names_are_normal_forms_witness :
  (forall s, isBasicLatin s = true -> latinUpperCase s = latinUpperCase s)
  /\ isBasicLatin (js " rUles ") = true
  /\ normalizeScope latinUpperCase (normalizeScope latinUpperCase (js " rUles "))
     = normalizeScope latinUpperCase (js " rUles ").
Proof.
  split; [reflexivity|]. split; [reflexivity|].
  exact (proj1 (scope_names_are_normal_forms latinUpperCase (js " rUles ")
                  (fun s _ => eq_refl) eq_refl)).
Defined.

(** ** Text added at the end *)

Lemma split_lines_app (a b : jsstring) :
  split_lines (a ++ LF :: b) = split_lines a ++ split_lines b.
Proof.
  induction a as [|c a IH]; simpl.
  - reflexivity.
  - destruct (c =? LF); rewrite IH; [reflexivity|].
    destruct (split_lines a) as [|l ls] eqn:S; [|reflexivity].
    now apply split_lines_nonempty in S.
Qed.

Lemma run_app k1 k2 st :
  run (k1 ++ k2) st
  = match run k1 st with
    | Some st1 => run k2 st1
    | None => None
    end.
Proof.
  revert st. induction k1 as [|kind k1 IH]; simpl; intros st; [reflexivity|].
  destruct (act kind st); [apply IH | reflexivity].
Qed.

Lemma run_keys_extend kinds st st' :
  run kinds st = Some st' ->
  exists new, map fst (st_scopes st') = map fst (st_scopes st) ++ new.
Proof.
  revert st. induction kinds as [|kind rest IH]; simpl; intros st H.
  - injection H as <-. exists []. now rewrite app_nil_r.
  - destruct (act kind st) as [st1|] eqn:A; [|discriminate].
    destruct (IH _ H) as [new E]. rewrite E.
    assert (exists new1, map fst (st_scopes st1) = map fst (st_scopes st) ++ new1)
      as [new1 ->].
    { destruct kind as [| |key|text]; simpl in A.
      - injection A as <-. exists []. now rewrite app_nil_r.
      - injection A as <-. exists []. now rewrite app_nil_r.
      - injection A as <-.
        destruct (openScope_keys key st) as (_ & [(_ & ->) | (_ & _ & ->)]).
        + exists []. now rewrite app_nil_r.
        + now eexists.
      - apply pushContent_keys in A as [-> _]. exists []. now rewrite app_nil_r. }
    exists (new1 ++ new). now rewrite app_assoc.
Qed.

(** Continuing a run only adds keys at the end and entries at the end of
    buckets. *)
Lemma run_continues k1 k2 st s1 s12 :
  run k1 st = Some s1 -> run (k1 ++ k2) st = Some s12 ->
  (forall k, exists more,
       bucketOf (st_scopes s12) k = bucketOf (st_scopes s1) k ++ more)
  /\ exists new, map fst (st_scopes s12) = map fst (st_scopes s1) ++ new.
Proof.
  intros R1 R12. rewrite run_app, R1 in R12. split.
  - intros k. eexists. apply (run_filed _ _ _ k R12).
  - eapply run_keys_extend, R12.
Qed.

Lemma nextLine_app rest more :
  V3.nextLine (rest ++ more)
  = if isEmpty (V3.nextLine rest) then V3.nextLine more else V3.nextLine rest.
Proof.
  induction rest as [|l rest IH]; simpl; [reflexivity|].
  destruct (isEmpty (trim l)) eqn:E; [exact IH | now rewrite E].
Qed.

Lemma kindsV3_app (toUpperCase : jsstring -> jsstring) l1 l2 :
  isListItem (V3.nextLine l2) = false ->
  kindsV3 toUpperCase (l1 ++ l2) = kindsV3 toUpperCase l1 ++ kindsV3 toUpperCase l2.
Proof.
  intros Hn. induction l1 as [|l rest IH]; simpl; [reflexivity|].
  rewrite IH. f_equal. f_equal.
  unfold V3.detectHeader, V3.looksLikeHeader. rewrite nextLine_app.
  destruct (V3.nextLine rest) as [|c n] eqn:N; simpl isEmpty; cbv iota;
    [now rewrite Hn | reflexivity].
Qed.

(** X11.  Version 3 is incremental as long as the added text does not
    start with a list item: when the first non-blank line of what is
    added after a line feed is not one, the result for the longer text
    keeps every bucket of the shorter one as a prefix and keeps its
    scopes, in their order of creation, before any new one. *)
Theorem v3_keeps_what_it_filed_when_text_is_added :
  forall (toUpperCase : jsstring -> jsstring) (a b : jsstring) ra rab,
    isListItem (V3.nextLine (split_lines b)) = false ->
    V3.useKnowledgeScoper toUpperCase (Some a) = Some ra ->
    V3.useKnowledgeScoper toUpperCase (Some (a ++ LF :: b)) = Some rab ->
    (forall k, exists more, bucketOf (scopes rab) k = bucketOf (scopes ra) k ++ more)
    /\ exists new, map fst (scopes rab) = map fst (scopes ra) ++ new.
Proof.
  intros toUpperCase a b ra rab Hn Ha Hab.
  rewrite V3_useKnowledgeScoper_run in Ha, Hab.
  rewrite split_lines_app, (kindsV3_app _ _ _ Hn) in Hab.
  destruct (run (kindsV3 toUpperCase (split_lines a)) initialState) as [s1|] eqn:R1;
    [|discriminate].
  destruct (run (_ ++ _) initialState) as [s12|] eqn:R12; [|discriminate].
  injection Ha as <-. injection Hab as <-. simpl.
  exact (run_continues _ _ _ _ _ R1 R12).
Qed.

Lemma v3_keeps_what_it_filed_when_text_is_added_witness :
  isListItem (V3.nextLine (split_lines (js "[Rules]" ++ nl ++ js "- do X"))) = false
  /\ exists new,
       map fst [(GLOBAL_KEY, [js "Intro line"]); (js "RULES", [js "- do X"])]
       = map fst [(GLOBAL_KEY, [js "Intro line"])] ++ new.
Proof.
  split; [reflexivity|].
  refine (proj2 (v3_keeps_what_it_filed_when_text_is_added latinUpperCase
                   (js "Intro line") (js "[Rules]" ++ nl ++ js "- do X")
                   {| scopes := [(GLOBAL_KEY, [js "Intro line"])];
                      availableScopes := [GLOBAL_KEY] |}
                   {| scopes := [(GLOBAL_KEY, [js "Intro line"]);
                                 (js "RULES", [js "- do X"])];
                      availableScopes := [GLOBAL_KEY; js "RULES"] |}
                   eq_refl _ _)); vm_compute; reflexivity.
Defined.

(** X12.  Version 2 is incremental without condition: whatever text is
    added after a line feed, the result for the longer text keeps every
    bucket of the shorter one as a prefix and keeps its scopes before
    any new one. *)
Theorem v2_keeps_what_it_filed_when_text_is_added :
  forall (toUpperCase : jsstring -> jsstring) (a b : jsstring) ra rab,
    V2.useKnowledgeScoper toUpperCase (Some a) = Some ra ->
    V2.useKnowledgeScoper toUpperCase (Some (a ++ LF :: b)) = Some rab ->
    (forall k, exists more, bucketOf (scopes rab) k = bucketOf (scopes ra) k ++ more)
    /\ exists new, map fst (scopes rab) = map fst (scopes ra) ++ new.
Proof.
  intros toUpperCase a b ra rab Ha Hab.
  rewrite V2_useKnowledgeScoper_run in Ha, Hab.
  unfold kindsV2 in Hab. rewrite split_lines_app, map_app in Hab.
  fold (kindsV2 toUpperCase (split_lines a)) in Hab.
  destruct (run (kindsV2 toUpperCase (split_lines a)) initialState) as [s1|] eqn:R1;
    [|discriminate].
  destruct (run (_ ++ _) initialState) as [s12|] eqn:R12; [|discriminate].
  injection Ha as <-. injection Hab as <-. simpl.
  exact (run_continues _ _ _ _ _ R1 R12).
Qed.

Lemma v2_keeps_what_it_filed_when_text_is_added_witness :
  exists new,
    map fst [(GLOBAL_KEY, [js "Bonus 1"; js "1. Extra credit task"])]
    = map fst [(GLOBAL_KEY, [js "Bonus 1"])] ++ new.
Proof.
  refine (proj2 (v2_keeps_what_it_filed_when_text_is_added latinUpperCase
                   (js "Bonus 1") (js "1. Extra credit task")
                   {| scopes := [(GLOBAL_KEY, [js "Bonus 1"])];
                      availableScopes := [GLOBAL_KEY] |}
                   {| scopes := [(GLOBAL_KEY, [js "Bonus 1"; js "1. Extra credit task"])];
                      availableScopes := [GLOBAL_KEY] |}
                   _ _)); vm_compute; reflexivity.
Defined.

(** ** Version 3 against version 2 *)

Lemma In_fold_addKey hs init k :
  In k (fold_left addKey hs init) <-> In k init \/ In k hs.
Proof.
  revert init. induction hs as [|h hs IH]; simpl; intros init; [tauto|].
  rewrite IH. unfold addKey.
  destruct (existsb (String_eqb h) init) eqn:E.
  - apply existsb_String_eqb in E. split; [tauto|].
    intros [H | [<- | H]]; tauto.
  - rewrite in_app_iff. simpl. tauto.
Qed.

Section Versions.

Variable toUpperCase : jsstring -> jsstring.

(** Line by line, version 3 sees what version 2 sees, except that some of
    the content lines of version 2 are headers or tags for version 3. *)
Lemma kind_V2_V3 l rest :
  kindOf toUpperCase (V3.detectHeader (trim l) rest) (trim l)
  = kindOf toUpperCase (explicitHeader (trim l)) (trim l)
  \/ kindOf toUpperCase (explicitHeader (trim l)) (trim l) = ContentLine (trim l).
Proof.
  destruct (explicitHeader (trim l)) as [h|] eqn:E.
  - left. now rewrite (detectHeader_explicit _ rest _ E).
  - unfold kindOf at 3. destruct (isEmpty (trim l)) eqn:Em; [|now right].
    left. unfold kindOf. now rewrite Em.
Qed.

Lemma headerKeys_V2_V3 lines k :
  In k (headerKeys (kindsV2 toUpperCase lines)) ->
  In k (headerKeys (kindsV3 toUpperCase lines)).
Proof.
  induction lines as [|l rest IH]; simpl; [tauto|].
  destruct (kind_V2_V3 l rest) as [-> | ->].
  - destruct (kindOf toUpperCase (explicitHeader (trim l)) (trim l)); simpl;
      try exact IH.
    intros [<- | H]; [now left | right; now apply IH].
  - simpl. intros H.
    destruct (kindOf toUpperCase (V3.detectHeader (trim l) rest) (trim l)); simpl;
      try (now apply IH). right. now apply IH.
Qed.

Lemma contentLines_V3_V2 lines :
  (List.length (contentLines (kindsV3 toUpperCase lines))
   <= List.length (contentLines (kindsV2 toUpperCase lines)))%nat.
Proof.
  induction lines as [|l rest IH]; simpl; [lia|].
  destruct (kind_V2_V3 l rest) as [-> | ->].
  - destruct (kindOf toUpperCase (explicitHeader (trim l)) (trim l)); simpl; lia.
  - destruct (kindOf toUpperCase (V3.detectHeader (trim l) rest) (trim l)); simpl; lia.
Qed.

End Versions.

(** X13.  On the same text version 3 lists every scope that version 2
    lists, and records at most as many content lines: the look-ahead rule
    only turns content lines into headers. *)
Theorem v3_keeps_the_scopes_of_v2 :
  forall toUpperCase : jsstring -> jsstring,
    (forall s, noLowerLatin (toUpperCase s) = true) ->
    forall raw : jsstring,
    exists r3 r2,
      V3.useKnowledgeScoper toUpperCase (Some raw) = Some r3
      /\ V2.useKnowledgeScoper toUpperCase (Some raw) = Some r2
      /\ (forall k, In k (availableScopes r2) -> In k (availableScopes r3))
      /\ (List.length (List.concat (map snd (scopes r3)))
          <= List.length (List.concat (map snd (scopes r2))))%nat.
Proof.
  intros toUpperCase Hup raw.
  destruct (V3_result_run toUpperCase raw Hup) as (s3 & R3 & H3).
  destruct (V2_result_run toUpperCase raw Hup) as (s2 & R2 & H2).
  exists (finish s3), (finish s2).
  split; [exact H3|]. split; [exact H2|]. split.
  - assert (K3 : map fst (st_scopes s3)
                 = fold_left addKey
                     (headerKeys (kindsV3 toUpperCase (split_lines raw)))
                     (map fst (st_scopes initialState))).
    { apply run_keys; [|exact R3].
      intros key Hk. eapply not_on_prototype; [exact Hup|].
      eapply headerKeys_V3_normalized, Hk. }
    assert (K2 : map fst (st_scopes s2)
                 = fold_left addKey
                     (headerKeys (kindsV2 toUpperCase (split_lines raw)))
                     (map fst (st_scopes initialState))).
    { apply run_keys; [|exact R2].
      intros key Hk. eapply not_on_prototype; [exact Hup|].
      eapply headerKeys_V2_normalized, Hk. }
    intros k. simpl. rewrite !Object_keys_In, K3, K2, !In_fold_addKey.
    intros [H | H]; [now left | right]. now apply headerKeys_V2_V3.
  - simpl.
    rewrite (Permutation_length (run_content _ _ _ R3)),
      (Permutation_length (run_content _ _ _ R2)).
    simpl. apply contentLines_V3_V2.
Qed.

Lemma v3_keeps_the_scopes_of_v2_witness :
  (forall s, noLowerLatin (latinUpperCase s) = true)
  /\ exists r3 r2,
       V3.useKnowledgeScoper latinUpperCase (Some scenarioB) = Some r3
       /\ V2.useKnowledgeScoper latinUpperCase (Some scenarioB) = Some r2
       /\ (forall k, In k (availableScopes r2) -> In k (availableScopes r3)).
Proof.
  split; [exact latinUpperCase_no_lower|].
  destruct (v3_keeps_the_scopes_of_v2 latinUpperCase latinUpperCase_no_lower scenarioB)
    as (r3 & r2 & H3 & H2 & K & _).
  exists r3, r2. split; [exact H3|]. split; [exact H2 | exact K].
Defined.

(** ** The order of [availableScopes] *)

Lemma insertIndex_sorted e l :
  StronglySorted (fun a b => fst a <= fst b) l ->
  StronglySorted (fun a b => fst a <= fst b) (insertIndex e l).
Proof.
  induction 1 as [|e' l Hs IH Hall]; simpl.
  - constructor; constructor.
  - destruct (fst e <=? fst e') eqn:E.
    + apply N.leb_le in E. constructor; [now constructor|].
      constructor; [exact E|].
      eapply Forall_impl; [|exact Hall]. intros a Ha. simpl in *. lia.
    + apply N.leb_gt in E. constructor; [exact IH|].
      eapply Permutation_Forall; [apply Permutation_sym, insertIndex_perm|].
      constructor; [lia | exact Hall].
Qed.

Lemma sortIndices_sorted l :
  StronglySorted (fun a b => fst a <= fst b) (sortIndices l).
Proof.
  induction l as [|e l IH]; simpl; [constructor | now apply insertIndex_sorted].
Qed.

Lemma indexKeys_values ks e :
  In e (indexKeys ks) -> arrayIndex (snd e) = Some (fst e).
Proof.
  induction ks as [|k ks IH]; simpl; [contradiction|].
  destruct (arrayIndex k) eqn:A; [|exact IH].
  intros [<- | H]; [exact A | now apply IH].
Qed.

Lemma sorted_index_names l :
  (forall e, In e l -> arrayIndex (snd e) = Some (fst e)) ->
  StronglySorted (fun a b => fst a <= fst b) l ->
  StronglySorted (fun a b => indexValue a <= indexValue b) (map snd l)
  /\ Forall (fun k => isNamedKey k = false) (map snd l).
Proof.
  intros Hv Hs. induction Hs as [|e l Hs IH Hall]; simpl.
  - split; constructor.
  - destruct IH as [IH1 IH2]; [intros x Hx; apply Hv; now right|].
    assert (He : arrayIndex (snd e) = Some (fst e)) by (apply Hv; now left).
    split; constructor; try assumption.
    + rewrite Forall_map. rewrite Forall_forall in *. intros x Hx.
      unfold indexValue. rewrite He, (Hv x (or_intror Hx)). now apply Hall.
    + unfold isNamedKey. now rewrite He.
Qed.

(** X14.  [availableScopes] is the names that are array indices, in
    ascending numeric order, followed by the other names in their order
    of creation; the global key is the first of these other names, so it
    is the first of all exactly when no scope name is an array index. *)
Theorem available_scopes_order :
  forall (toUpperCase : jsstring -> jsstring) rawRules r,
    V3.useKnowledgeScoper toUpperCase rawRules = Some r ->
    exists indices named,
      availableScopes r = indices ++ GLOBAL_KEY :: named
      /\ Forall (fun k => isNamedKey k = false) indices
      /\ StronglySorted (fun a b => indexValue a <= indexValue b) indices
      /\ GLOBAL_KEY :: named = filter isNamedKey (map fst (scopes r))
      /\ (hd_error (availableScopes r) = Some GLOBAL_KEY <-> indices = []).
Proof.
  intros toUpperCase rawRules r H.
  destruct (global_is_created_first toUpperCase rawRules r H) as [later E].
  apply V3_result_sound in H as ((Hav & _) & _).
  set (sorted := sortIndices (indexKeys (map fst (scopes r)))).
  destruct (sorted_index_names sorted) as [S1 S2].
  { intros e He. apply (indexKeys_values (map fst (scopes r))).
    eapply Permutation_in; [apply sortIndices_perm | exact He]. }
  { apply sortIndices_sorted. }
  exists (map snd sorted), (filter isNamedKey later).
  assert (F : filter isNamedKey (map fst (scopes r))
              = GLOBAL_KEY :: filter isNamedKey later) by (rewrite E; reflexivity).
  split; [rewrite Hav; unfold Object_keys; now rewrite F|].
  split; [exact S2|]. split; [exact S1|]. split; [now rewrite F|].
  rewrite Hav. unfold Object_keys. fold sorted. rewrite F.
  destruct (map snd sorted) as [|i idx] eqn:M; simpl.
  - tauto.
  - split; [|discriminate]. intros [= ->].
    inversion S2 as [|? ? Hi _]. discriminate Hi.
Qed.

Lemma available_scopes_order_witness :
  V3.useKnowledgeScoper latinUpperCase (Some (js "[1]"))
  = Some {| scopes := [(GLOBAL_KEY, []); (js "1", [])];
            availableScopes := [js "1"; GLOBAL_KEY] |}
  /\ exists indices named, [js "1"; GLOBAL_KEY] = indices ++ GLOBAL_KEY :: named.
Proof.
  assert (H : V3.useKnowledgeScoper latinUpperCase (Some (js "[1]"))
              = Some {| scopes := [(GLOBAL_KEY, []); (js "1", [])];
                        availableScopes := [js "1"; GLOBAL_KEY] |})
    by (vm_compute; reflexivity).
  split; [exact H|].
  destruct (available_scopes_order latinUpperCase _ _ H)
    as (indices & named & E & _).
  exists indices, named. exact E.
Defined.

(** ** Edge cases of detection *)

Lemma explicit_patterns_heads_colon line t :
  colonMatch line = Some t ->
  bracketMatch line = None /\ mdMatch line = None /\ boldMatch line = None.
Proof.
  intros C. destruct (proj2 (proj2 (proj2 (explicit_heads line t))) C)
    as (c & Hc & L).
  assert (Hb : bracketMatch line = None).
  { destruct (bracketMatch line) as [b|] eqn:B; [|reflexivity].
    apply (explicit_heads line b) in B. rewrite B in Hc.
    injection Hc as <-. discriminate L. }
  assert (Hm : mdMatch line = None).
  { destruct (mdMatch line) as [m|] eqn:M; [|reflexivity].
    apply (explicit_heads line m) in M. rewrite M in Hc.
    injection Hc as <-. discriminate L. }
  assert (Ho : boldMatch line = None).
  { destruct (boldMatch line) as [o|] eqn:O; [|reflexivity].
    apply (explicit_heads line o) in O. rewrite O in Hc.
    injection Hc as <-. discriminate L. }
  now repeat split.
Qed.

Lemma endsSentence_colon t : endsSentence (t ++ [ch ":"]) = false.
Proof. unfold endsSentence. rewrite rev_app_distr. reflexivity. Qed.

(** X15.  A colon-suffixed label is an explicit header, named by the
    text before the colon, only under 50 code units, and this whether or
    not it looks like a list item.  From 50 up to 59 code units it can
    still become a header through the look-ahead rule, when a list item
    follows and it is not one itself; its name is then the whole line,
    colon included.  From 60 on it is content. *)
Theorem colon_label_length_thresholds :
  forall (t : jsstring) (rest : list jsstring),
    t <> [] ->
    forallb isLabelUnit t = true ->
    ((strlen (t ++ [ch ":"]) < 50)%N ->
     explicitHeader (t ++ [ch ":"]) = Some t
     /\ V3.detectHeader (t ++ [ch ":"]) rest = Some t)
    /\ ((50 <= strlen (t ++ [ch ":"]) < 60)%N ->
        explicitHeader (t ++ [ch ":"]) = None
        /\ (isListItem (V3.nextLine rest) = true ->
            isListItem (t ++ [ch ":"]) = false ->
            V3.detectHeader (t ++ [ch ":"]) rest = Some (t ++ [ch ":"]))
        /\ (isListItem (V3.nextLine rest) = false
            \/ isListItem (t ++ [ch ":"]) = true ->
            V3.detectHeader (t ++ [ch ":"]) rest = None))
    /\ ((60 <= strlen (t ++ [ch ":"]))%N ->
        V3.detectHeader (t ++ [ch ":"]) rest = None).
Proof.
  intros t rest Hne Hall.
  assert (C : colonMatch (t ++ [ch ":"]) = Some t)
    by (apply colonMatch_shape; auto).
  destruct (explicit_patterns_heads_colon (t ++ [ch ":"]) t C) as (B & M & O).
  assert (X : explicitHeader (t ++ [ch ":"])
              = if strlen (t ++ [ch ":"]) <? 50 then Some t else None)
    by (unfold explicitHeader; now rewrite B, M, O, C).
  split; [|split].
  - intros L. apply N.ltb_lt in L. rewrite L in X.
    split; [exact X | now apply detectHeader_explicit].
  - intros [L1 L2]. apply N.ltb_ge in L1. rewrite L1 in X.
    split; [exact X|].
    rewrite (detectHeader_implicit _ rest X). unfold V3.looksLikeHeader.
    rewrite endsSentence_colon. apply N.ltb_lt in L2. rewrite L2. split.
    + intros -> ->. reflexivity.
    + intros [-> | ->]; [reflexivity|]. now rewrite andb_false_r.
  - intros L. assert (L50 : (strlen (t ++ [ch ":"]) <? 50) = false)
      by (apply N.ltb_ge; lia).
    rewrite L50 in X. rewrite (detectHeader_implicit _ rest X).
    unfold V3.looksLikeHeader. apply N.ltb_ge in L. rewrite L.
    now rewrite andb_false_r.
Qed.

Lemma colon_label_length_thresholds_witness :
  js "- Note" <> []
  /\ forallb isLabelUnit (js "- Note") = true
  /\ isListItem (js "- Note:") = true
  /\ explicitHeader (js "- Note:") = Some (js "- Note").
Proof.
  assert (Hne : js "- Note" <> []) by discriminate.
  split; [exact Hne|]. split; [reflexivity|]. split; [reflexivity|].
  refine (proj1 (proj1 (colon_label_length_thresholds (js "- Note") [] Hne eq_refl) _)).
  vm_compute. reflexivity.
Defined.

(** X16.  Brackets around nothing but white space are a header whose
    name is empty: the line opens (or selects) the scope named by what
    [toUpperCase] gives for the empty string, which is the empty string.
    Nothing guards against an empty scope name. *)
Theorem blank_bracket_opens_the_empty_name :
  forall (toUpperCase : jsstring -> jsstring) (w : jsstring) (rest : list jsstring),
    (forall s, isBasicLatin s = true -> toUpperCase s = latinUpperCase s) ->
    w <> [] ->
    Blank w ->
    V3.detectHeader (ch "[" :: w ++ [ch "]"]) rest = Some w
    /\ normalizeScope toUpperCase w = []
    /\ kindOf toUpperCase (V3.detectHeader (ch "[" :: w ++ [ch "]"]) rest)
         (ch "[" :: w ++ [ch "]"])
       = HeaderLine []
    /\ forall st,
         getOwn (st_scopes st) [] = None ->
         act (HeaderLine []) st
         = Some {| st_scopes := setOwn (st_scopes st) [] []; currentScope := [] |}.
Proof.
  intros toUpperCase w rest Hlatin Hne Hw.
  assert (Hno : forallb (fun x => negb (x =? ch "]")) w = true).
  { unfold Blank in Hw. rewrite forallb_forall in *. intros c Hc.
    specialize (Hw c Hc). apply negb_true_iff, N.eqb_neq. intros ->.
    discriminate Hw. }
  assert (D : V3.detectHeader (ch "[" :: w ++ [ch "]"]) rest = Some w).
  { apply detectHeader_explicit. unfold explicitHeader.
    rewrite bracketMatch_bracketed; auto. }
  assert (K : normalizeScope toUpperCase w = []).
  { unfold normalizeScope.
    assert (T : trim w = []).
    { unfold trim. now rewrite (dropWhile_all _ _ Hw). }
    rewrite T. now rewrite (Hlatin [] eq_refl). }
  split; [exact D|]. split; [exact K|]. split.
  - rewrite D. unfold kindOf. cbn [isEmpty].
    destruct w as [|c w]; [contradiction|]. now rewrite K.
  - intros st Hst. simpl. unfold openScope, getProp. now rewrite Hst.
Qed.

Lemma blank_bracket_opens_the_empty_name_witness :
  (forall s, isBasicLatin s = true -> latinUpperCase s = latinUpperCase s)
  /\ js " " <> []
  /\ Blank (js " ")
  /\ V3.useKnowledgeScoper latinUpperCase (Some (js "[ ]" ++ nl ++ js "x"))
     = Some {| scopes := [(GLOBAL_KEY, []); ([], [js "x"])];
               availableScopes := [GLOBAL_KEY; []] |}
  /\ V3.detectHeader (js "[ ]") [js "x"] = Some (js " ").
Proof.
  assert (Hne : js " " <> []) by discriminate.
  split; [reflexivity|]. split; [exact Hne|]. split; [reflexivity|].
  split; [vm_compute; reflexivity|].
  exact (proj1 (blank_bracket_opens_the_empty_name latinUpperCase (js " ") [js "x"]
                  (fun s _ => eq_refl) Hne eq_refl)).
Defined.
